(** * Laravel Blade language server: embedded-language modes

    A shallow embedding of the TypeScript sources of the language server
    (library loader, prettier wrapper, template-include peek, JavaScript
    and LESS modes) together with the properties its specification states
    about them.

    Conventions of the embedding:
    - a JavaScript string is the list of its UTF-16 code units ([jsstring]);
    - a JavaScript number that the code only uses as an integer (versions,
      offsets, line and column numbers) is a [Z];
    - [undefined]/[null] results are [None];
    - an exception that leaves a function is a constructor of its result
      type;
    - module-level and closure-level mutable variables are fields of an
      explicit state record that every operation takes and returns;
    - external collaborators (the file system, Node's [path.join], the
      prettier formatter, the TypeScript and LESS language services, the
      document cache) are parameters. *)

From Stdlib Require Import ZArith NArith List Lia Bool.
From Stdlib Require Import Strings.String Strings.Ascii Numbers.DecimalString.
From Stdlib Require Import Numbers.DecimalPos Numbers.DecimalZ.
From stdpp Require Import base decidable option list countable gmap.
From Equations Require Import Equations.
From Equations.Prop Require Import Logic.
Import ListNotations.

Set Warnings "-register-all".

Set Default Proof Using "Type".

(* ===================================================================== *)
(** * JavaScript strings *)
(* ===================================================================== *)

Module JsStr.

(** A string value: its sequence of UTF-16 code units. *)
Abbreviation jsstring := (list N).

(** A literal of the source, written with ASCII characters. *)
Definition lit (s : string) : jsstring :=
  List.map N_of_ascii (list_ascii_of_string s).

Definition LF : N := 10%N.
Definition CR : N := 13%N.
Definition TAB : N := 9%N.
Definition SPACE : N := 32%N.

(** ECMAScript [LineTerminator]: the characters [.] does not match. *)
Definition is_line_terminator (c : N) : bool :=
  (c =? 10)%N || (c =? 13)%N || (c =? 0x2028)%N || (c =? 0x2029)%N.

(** ECMAScript [WhiteSpace] and [LineTerminator]: what [trim],
    [trimEnd] and [\s] remove. *)
Definition is_white_space (c : N) : bool :=
  (c =? 9)%N || (c =? 10)%N || (c =? 11)%N || (c =? 12)%N || (c =? 13)%N
  || (c =? 32)%N || (c =? 0xA0)%N || (c =? 0x1680)%N
  || ((0x2000 <=? c)%N && (c <=? 0x200A)%N)
  || (c =? 0x2028)%N || (c =? 0x2029)%N || (c =? 0x202F)%N
  || (c =? 0x205F)%N || (c =? 0x3000)%N || (c =? 0xFEFF)%N.

(** [String.prototype.trimStart]. *)
Fixpoint trimStart (s : jsstring) : jsstring :=
  match s with
  | [] => []
  | c :: r => if is_white_space c then trimStart r else s
  end.

(** [String.prototype.trimEnd]. *)
Fixpoint trimEnd (s : jsstring) : jsstring :=
  match s with
  | [] => []
  | c :: r =>
      match trimEnd r with
      | [] => if is_white_space c then [] else [c]
      | r' => c :: r'
      end
  end.

(** [String.prototype.trim]. *)
Definition trim (s : jsstring) : jsstring := trimEnd (trimStart s).

(** Truthiness of a string: the empty string is the only falsy one. *)
Definition truthy (s : jsstring) : bool :=
  match s with [] => false | _ :: _ => true end.

(** [s.split(sep)] for a one-character separator. *)
Fixpoint split (sep : N) (s : jsstring) : list jsstring :=
  match s with
  | [] => [[]]
  | c :: r =>
      if (c =? sep)%N then [] :: split sep r
      else match split sep r with
           | l :: ls => (c :: l) :: ls
           | [] => [[c]]
           end
  end.

(** [parts.join(sep)]. *)
Fixpoint join (sep : jsstring) (parts : list jsstring) : jsstring :=
  match parts with
  | [] => []
  | [p] => p
  | p :: ps => p ++ sep ++ join sep ps
  end.

(** [s.replaceAll(c, "")] and [s.replace(/c1|c2/g, "")]: every code unit
    satisfying [drop] is removed. *)
Definition remove_all (drop : N -> bool) (s : jsstring) : jsstring :=
  List.filter (fun c => negb (drop c)) s.

Fixpoint starts_with (pat s : jsstring) : bool :=
  match pat, s with
  | [], _ => true
  | p :: pat', c :: s' => (p =? c)%N && starts_with pat' s'
  | _ :: _, [] => false
  end.

Fixpoint indexOf_from (pat s : jsstring) (i : Z) : Z :=
  if starts_with pat s then i
  else match s with
       | [] => (-1)%Z
       | _ :: r => indexOf_from pat r (i + 1)%Z
       end.

(** [s.indexOf(pat)]: the first index where [pat] occurs, or [-1]. *)
Definition indexOf (s pat : jsstring) : Z := indexOf_from pat s 0%Z.

(** [String(n)] for an integer number. *)
Definition of_Z (n : Z) : jsstring := lit (NilZero.string_of_int (Z.to_int n)).

(** ASCII lower-casing of one code unit; the [i] flag of a regular
    expression without the [u] flag never identifies a code unit above
    127 with one below. *)
Definition to_lower (c : N) : N :=
  if ((65 <=? c)%N && (c <=? 90)%N)%bool then (c + 32)%N else c.

Fixpoint starts_with_ci (pat s : jsstring) : bool :=
  match pat, s with
  | [], _ => true
  | p :: pat', c :: s' => (to_lower p =? to_lower c)%N && starts_with_ci pat' s'
  | _ :: _, [] => false
  end.

End JsStr.
Import JsStr.

(* ===================================================================== *)
(** * javascriptLibs.ts: the memoized library loader *)
(* ===================================================================== *)

Module JavascriptLibs.

(** The two [fs] functions the loader calls.  [readFileSync p] is
    [None] when the read throws. *)
Record FileSystem := {
  existsSync : jsstring -> bool;
  readFileSync : jsstring -> option jsstring
}.

Inductive FsCall :=
| ExistsSync (p : jsstring)
| ReadFileSync (p : jsstring).

(** The module-level object [contents], the console, and the file-system
    calls made so far (most recent last). *)
Record LibState := {
  contents : gmap jsstring jsstring;
  console : list jsstring;
  fsCalls : list FsCall
}.

Definition PROTO : jsstring := lit "__proto__".

(** [contents[name]] followed by the test [typeof content === "string"].
    [contents] is created by the literal [{}], so it inherits from
    [Object.prototype]: every inherited data property is a function, and
    the inherited accessor [__proto__] yields the prototype object, none
    of which is a string.  The map holds the own string properties. *)
Definition contents_get (c : gmap jsstring jsstring) (name : jsstring)
  : option jsstring :=
  if decide (name = PROTO) then None else c !! name.

(** [contents[name] = content] for a string [content].  Assigning
    through the inherited [__proto__] accessor calls its setter, which
    ignores a value that is neither an object nor null: no own property
    is created.  Any other name becomes (or updates) an own property. *)
Definition contents_set (c : gmap jsstring jsstring) (name content : jsstring)
  : gmap jsstring jsstring :=
  if decide (name = PROTO) then c else <[name := content]> c.

Section Loader.
(** [path.join] of Node and the folder [dirname(__dirname)]. *)
Variable join : jsstring -> jsstring -> jsstring.
Variable serverFolder : jsstring.

Definition TYPESCRIPT_LIB_SOURCE : jsstring :=
  join serverFolder (lit "./node_modules/typescript/lib").
Definition JQUERY_PATH : jsstring :=
  join serverFolder (lit "lib/jquery.d.ts").

(** The path computed at lines 19-28, with the [existsSync] call it
    makes, if any. *)
Definition resolve (fs : FileSystem) (name : jsstring)
  : jsstring * list FsCall :=
  if decide (name = lit "jquery") then (JQUERY_PATH, [])
  else if existsSync fs name then (name, [ExistsSync name])
       else (join TYPESCRIPT_LIB_SOURCE name, [ExistsSync name]).

Definition unable_message (name libPath : jsstring) : jsstring :=
  lit "Unable to load library " ++ name ++ lit " at " ++ libPath.

Definition loadLibrary (fs : FileSystem) (name : jsstring) (st : LibState)
  : jsstring * LibState :=
  match contents_get (contents st) name with
  | Some content => (content, st)
  | None =>
      let '(libPath, probes) := resolve fs name in
      let calls := fsCalls st ++ probes ++ [ReadFileSync libPath] in
      match readFileSync fs libPath with
      | Some content =>
          (content,
           {| contents := contents_set (contents st) name content;
              console := console st;
              fsCalls := calls |})
      | None =>
          (lit "",
           {| contents := contents_set (contents st) name (lit "");
              console := console st ++ [unable_message name libPath];
              fsCalls := calls |})
      end
  end.
End Loader.

End JavascriptLibs.

(* ===================================================================== *)
(** * vscode-languageserver-types: the protocol values the code builds *)
(* ===================================================================== *)

Module Lsp.

Record Position := { line : Z; character : Z }.
Record Range := { start_ : Position; end_ : Position }.
Record Location := { loc_uri : jsstring; loc_range : Range }.
Record TextEdit := { edit_range : Range; newText : jsstring }.
Record FormattingOptions := { tabSize : Z; insertSpaces : bool }.

(** The [TextDocument] interface: the properties and methods the code
    calls.  [getText None] is [getText()]. *)
Record TextDocument := {
  uri : jsstring;
  version : Z;
  getText : option Range -> jsstring;
  offsetAt : Position -> Z;
  positionAt : Z -> Position
}.

Definition Position_create (l c : Z) : Position := {| line := l; character := c |}.
Definition Range_create (s e : Position) : Range := {| start_ := s; end_ := e |}.
Definition Location_create (u : jsstring) (r : Range) : Location :=
  {| loc_uri := u; loc_range := r |}.

End Lsp.
Import Lsp.

(* ===================================================================== *)
(** * utils/prettier.ts: the formatter wrapper *)
(* ===================================================================== *)

Module Prettier.

(** Modelled from the spec: [get] of [./share] is not among the sources;
    it is the null-safe indexed read its call site needs, [get(m, i)]
    being [m[i]] when [m] is an array and [undefined] when [m] is
    [null]. *)
Definition get (m : option (list jsstring)) (i : nat) : option jsstring :=
  match m with
  | Some a => nth_error a i
  | None => None
  end.

(** Modelled from the spec: [repeat] of [./strings] is not among the
    sources; [repeat(s, count)] is [count] copies of [s], and the empty
    string when [count] is not positive. *)
Definition repeat (s : jsstring) (count : Z) : jsstring :=
  List.concat (List.repeat s (Z.to_nat count)).

(** Only spaces and tabs up to the end of the input. *)
Fixpoint blanks_to_end (s : jsstring) : bool :=
  match s with
  | [] => true
  | c :: r => ((c =? SPACE)%N || (c =? TAB)%N) && blanks_to_end r
  end.

(** An optional carriage return, then only spaces and tabs up to the end
    of the input.  A carriage return is neither a space nor a tab, so
    giving up the optional one never helps. *)
Definition cr_blanks_to_end (s : jsstring) : bool :=
  match s with
  | c :: r => if (c =? CR)%N then blanks_to_end r else blanks_to_end s
  | [] => true
  end.

(** [exec] of the regular expression of line 81 (a line feed, an
    optional carriage return, spaces and tabs, end of input) on [text]:
    the leftmost position where the pattern matches; the result array
    holds the match and its one group, which are the same text. *)
Fixpoint exec_tagIndent (text : jsstring) : option (list jsstring) :=
  match text with
  | [] => None
  | c :: r =>
      if (c =? LF)%N && cr_blanks_to_end r then Some [text; text]
      else exec_tagIndent r
  end.

Definition tagIndent (text : jsstring) : jsstring :=
  default [] (get (exec_tagIndent text) 0).

Definition prefixIndent (text : jsstring) : jsstring :=
  remove_all (fun c => (c =? LF)%N) (tagIndent text).

(** One indentation step of the formatting options. *)
Definition indentUnit (formattingOption : FormattingOptions) : jsstring :=
  if insertSpaces formattingOption
  then repeat (lit " ") (tabSize formattingOption)
  else [TAB].

Definition intdent (text : jsstring) (formattingOption : FormattingOptions)
  : jsstring :=
  prefixIndent text ++ indentUnit formattingOption.

Section Format.
(** [prettier.format(text, { parser, tabWidth, useTabs })] where it
    returns: the text it returns is a function of its arguments.  The
    call that throws is [formatOrRaise] below. *)
Variable prettier_format : jsstring -> jsstring -> Z -> bool -> jsstring.

Definition format (text parser : jsstring) (formattingOption : FormattingOptions)
  : jsstring :=
  let newText :=
    prettier_format text parser (tabSize formattingOption)
      (negb (insertSpaces formattingOption)) in
  let newText :=
    join [LF]
      (List.map (fun line => intdent text formattingOption ++ line)
         (split LF newText)) in
  [LF] ++ trimEnd newText ++ tagIndent text.
End Format.

(** What a call that may throw yields: the value it returns, or the
    exception it raises. *)
Inductive attempt (Error A : Type) :=
| Done (a : A)
| Raised (error : Error).
Arguments Done {Error A} a.
Arguments Raised {Error A} error.

(** [format] with a [prettier.format] that throws on text it cannot
    parse (a [SyntaxError]).  No handler surrounds the call of line 79:
    the exception leaves [format] before any text is built.  When
    prettier returns [out], the text is the one [format] builds from
    [out]. *)
Definition formatOrRaise {Error : Type}
    (prettier_format : jsstring -> jsstring -> Z -> bool -> attempt Error jsstring)
    (text parser : jsstring) (formattingOption : FormattingOptions)
  : attempt Error jsstring :=
  match prettier_format text parser (tabSize formattingOption)
          (negb (insertSpaces formattingOption)) with
  | Done out => Done (format (fun _ _ _ _ => out) text parser formattingOption)
  | Raised error => Raised error
  end.

End Prettier.

(* ===================================================================== *)
(** * Template-include peek: jump to the file of an include directive *)
(* ===================================================================== *)

Module Peek.

Record IncludePart := {
  start : Z;
  end' : Z;
  text : jsstring;
  template : jsstring
}.

Record WorkspaceFolder := { folder_uri : jsstring; folder_name : jsstring }.

(** Modelled from the spec: the type [Settings] of [./modes/languageModes]
    is not among the sources; the one setting read here is the
    template-include search path, [settings.blade.views.path]. *)
Record Settings := { blade_views_path : jsstring }.

Record PeekOptions := {
  settings : Settings;
  workspaceFolders : option (list WorkspaceFolder)
}.

(** [null] is [None]. *)
Definition getWorkspacePath (workspaceFolders : option (list WorkspaceFolder))
    (document : TextDocument) : option jsstring :=
  match workspaceFolders with
  | Some ((_ :: _) as folders) =>
      let currentWorkspace :=
        List.filter (fun a => (indexOf (uri document) (folder_uri a) =? 0)%Z)
          folders in
      match currentWorkspace with
      | a :: _ => Some (folder_uri a)
      | [] => None
      end
  | _ => None
  end.

Definition joinUri (args : list jsstring) : jsstring := join (lit "/") args.

Definition is_quote (c : N) : bool := (c =? 39)%N || (c =? 34)%N.

(** The lazy tail of group 1: as few characters other than line
    terminators as possible, then a quote.  The result is the number of
    code units matched. *)
Fixpoint lazy_to_quote (s : jsstring) : option nat :=
  match s with
  | [] => None
  | c :: r =>
      if is_quote c then Some 1%nat
      else if is_line_terminator c then None
           else S <$> lazy_to_quote r
  end.

(** Group 1: one character other than a line terminator, then the lazy
    tail. *)
Definition group1 (s : jsstring) : option nat :=
  match s with
  | [] => None
  | c :: r => if is_line_terminator c then None else S <$> lazy_to_quote r
  end.

(** The regular expression of line 41 matched at the start of [s]: an at
    sign, [include] or [extends] in any letter case, an opening
    parenthesis, group 1.  The result is the length of the whole match;
    group 1 starts nine code units in. *)
Definition match_at (s : jsstring) : option nat :=
  match s with
  | c :: r =>
      if (c =? 64)%N
         && (starts_with_ci (lit "include(") r || starts_with_ci (lit "extends(") r)
      then (fun n => (9 + n)%nat) <$> group1 (drop 8 r)
      else None
  | [] => None
  end.

(** The leftmost match in [s], whose first code unit has index [i]. *)
Fixpoint search (s : jsstring) (i : nat) : option (nat * nat) :=
  match match_at s with
  | Some n => Some (i, n)
  | None => match s with
            | [] => None
            | _ :: r => search r (S i)
            end
  end.

(** [regex.exec(lineText)] with [regex.lastIndex = lastIndex]: the index
    and the length of the match. *)
Definition exec (lineText : jsstring) (lastIndex : nat) : option (nat * nat) :=
  search (drop lastIndex lineText) lastIndex.

Definition slice (s : jsstring) (from len : nat) : jsstring :=
  take len (drop from s).

Definition mkPart (lineText : jsstring) (index len : nat) : IncludePart :=
  {| start := Z.of_nat index;
     end' := Z.of_nat index + Z.of_nat len;
     text := slice lineText index len;
     template := remove_all is_quote (slice lineText (index + 9) (len - 9)) |}.

Lemma lazy_to_quote_bound s n : lazy_to_quote s = Some n -> (1 <= n <= length s)%nat.
Proof.
  revert n; induction s as [|c r IH]; intros n; simpl; [discriminate|].
  destruct (is_quote c); [intros [= <-]; lia|].
  destruct (is_line_terminator c); [discriminate|].
  destruct (lazy_to_quote r) as [m|]; simpl; [|discriminate].
  intros [= <-]. specialize (IH m eq_refl). lia.
Qed.

Lemma starts_with_ci_length pat s :
  starts_with_ci pat s = true -> (length pat <= length s)%nat.
Proof.
  revert s; induction pat as [|p pat IH]; intros [|c s] H; simpl in *;
    try lia; try discriminate.
  apply andb_true_iff in H as [_ H]. apply IH in H. lia.
Qed.

Lemma match_at_bound s n : match_at s = Some n -> (11 <= n <= length s)%nat.
Proof.
  destruct s as [|c r]; [discriminate|]. unfold match_at.
  destruct ((c =? 64)%N && (starts_with_ci (lit "include(") r
                            || starts_with_ci (lit "extends(") r)) eqn:E;
    [|discriminate].
  apply andb_true_iff in E as [_ E].
  assert (Hlen : (8 <= length r)%nat).
  { apply orb_true_iff in E as [E|E]; apply starts_with_ci_length in E; exact E. }
  unfold group1. pose proof (length_drop r 8) as Hd.
  destruct (drop 8 r) as [|d r'] eqn:Er; [discriminate|].
  destruct (is_line_terminator d); [discriminate|].
  destruct (lazy_to_quote r') as [m|] eqn:El; [|discriminate].
  intros [= <-]. apply lazy_to_quote_bound in El.
  cbn [length] in *. lia.
Qed.

Lemma search_bound s i j n :
  search s i = Some (j, n) -> (i <= j /\ 11 <= n /\ j + n <= i + length s)%nat.
Proof.
  revert i; induction s as [|c r IH]; intros i; cbn [search].
  - cbn. discriminate.
  - destruct (match_at (c :: r)) as [m|] eqn:E.
    + intros H; inversion H; subst. apply match_at_bound in E.
      cbn [length] in *. lia.
    + intros H. apply IH in H. cbn [length]. lia.
Qed.

Lemma exec_bound s lastIndex j n :
  exec s lastIndex = Some (j, n) ->
  (lastIndex <= j /\ 11 <= n /\ j + n <= length s)%nat.
Proof.
  unfold exec. intros H. apply search_bound in H.
  rewrite length_drop in H.
  destruct (le_lt_dec lastIndex (length s)) as [Hle|Hgt]; [lia|].
  exfalso. lia.
Qed.

(** The loop of lines 43-52: [exec] is called until it finds nothing,
    each call resuming where the previous match ended. *)
Equations? collect (lineText : jsstring) (lastIndex : nat) : list IncludePart
  by wf (length lineText - lastIndex)%nat lt :=
  collect lineText lastIndex with inspect (exec lineText lastIndex) := {
    | exist _ (Some (index, len)) Hm =>
        mkPart lineText index len :: collect lineText (index + len)
    | exist _ None _ => [] }.
Proof. apply exec_bound in Hm. lia. Qed.

Definition includeParts (lineText : jsstring) : list IncludePart :=
  if truthy lineText && truthy (trim lineText) then collect lineText 0 else [].

Definition spans_cursor (position : Position) (part : IncludePart) : bool :=
  (start part <? character position)%Z && (end' part >? character position)%Z.

Definition peekFileDefinition (document : TextDocument) (position : Position)
    (options : PeekOptions) : option (list Location) :=
  let startPos := Position_create (line position) 0 in
  let endPos := Position_create (line position + 1) 0 in
  let lineText := getText document (Some (Range_create startPos endPos)) in
  let viewsBaseUri :=
    joinUri [default (lit "") (getWorkspacePath (workspaceFolders options) document);
             blade_views_path (settings options)] in
  let peekPart := head (List.filter (spans_cursor position) (includeParts lineText)) in
  match peekPart with
  | Some part =>
      let tplFileUri :=
        joinUri (viewsBaseUri :: split 46 (template part)) ++ lit ".blade.php" in
      Some [Location_create tplFileUri
              (Range_create (Position_create 0 0) (Position_create 0 0))]
  | None => Some []
  end.

End Peek.

(* ===================================================================== *)
(** * Values shared by the language modes *)
(* ===================================================================== *)

Module Modes.

(** What an operation yields: a value, or the [TypeError] JavaScript
    raises when a property of [undefined] is read. *)
Inductive outcome (A : Type) :=
| Returned (a : A)
| TypeError.
Arguments Returned {A} a.
Arguments TypeError {A}.

Record CompletionList (Item : Type) := {
  isIncomplete : bool;
  items : list Item
}.
Arguments isIncomplete {Item} _.
Arguments items {Item} _.

(** The check of lines 273 and 392 and the edit built under it.
    [formatter] is [prettier.format] of [utils/prettier.ts] with the
    parser of the mode already chosen; it is called only when the text
    is not blank, while the edit is built, and nothing catches what it
    throws. *)
Definition formatRange {Error : Type}
    (formatter : jsstring -> FormattingOptions -> Prettier.attempt Error jsstring)
    (document : TextDocument) (range : Range)
    (formattingOption : FormattingOptions)
  : Prettier.attempt Error (option (list TextEdit)) :=
  let text := getText document (Some range) in
  if truthy (trim text)
  then match formatter text formattingOption with
       | Prettier.Done formatted =>
           Prettier.Done (Some [ {| edit_range := range; newText := formatted |} ])
       | Prettier.Raised error => Prettier.Raised error
       end
  else Prettier.Done None.

End Modes.
Import Modes.

(* ===================================================================== *)
(** * modes/javascriptMode.ts *)
(* ===================================================================== *)

Module JavascriptMode.

Definition FILE_NAME : jsstring := lit "vscode://javascript/1".

Inductive CompletionItemKind :=
| CIK_Keyword | CIK_Variable | CIK_Field | CIK_Function | CIK_Enum
| CIK_Module | CIK_Class | CIK_Interface | CIK_File | CIK_Property.

Inductive SymbolKind :=
| SK_Variable | SK_Function | SK_Enum | SK_Module | SK_Class
| SK_Interface | SK_Method | SK_Property.

(** A [ts.TextSpan]. *)
Record TextSpan := { ts_start : Z; ts_length : Z }.

(** The argument type of [convertRange]: both fields may be
    [undefined]. *)
Record Span := { span_start : option Z; span_length : option Z }.

Definition span_of (t : TextSpan) : Span :=
  {| span_start := Some (ts_start t); span_length := Some (ts_length t) |}.

(** The fields the mode reads of a [ts.DefinitionInfo] and of a
    [ts.ReferenceEntry]. *)
Record DocumentSpan := { fileName : jsstring; textSpan : TextSpan }.

Record CompletionEntry := {
  entry_name : jsstring;
  entry_sortText : jsstring;
  entry_kind : jsstring
}.

Record CompletionInfo := { entries : list CompletionEntry }.

Record CompletionData := {
  data_languageId : jsstring;
  data_uri : jsstring;
  data_offset : Z
}.

Record CompletionItem := {
  item_uri : jsstring;
  item_position : Position;
  label : jsstring;
  sortText : jsstring;
  kind : CompletionItemKind;
  textEdit : TextEdit;
  data : CompletionData
}.

Inductive NavigationBarItem := NavItem {
  nav_text : jsstring;
  nav_kind : jsstring;
  nav_spans : list TextSpan;
  nav_childItems : option (list NavigationBarItem)
}.

Record SymbolInformation := {
  name : jsstring;
  symbol_kind : SymbolKind;
  location : Location;
  containerName : option jsstring
}.

(** The variables of the closure of [getJavascriptMode] that change, and
    the documents [jsDocuments.get] was called with (most recent
    last).  [scriptFileVersion] is a JavaScript number that is only ever
    incremented from 0; the increment is exact below 2^53. *)
Record ModeState := {
  currentTextDocument : option TextDocument;
  scriptFileVersion : Z;
  jsDocumentsGets : list TextDocument
}.

(** The methods of the TypeScript language service the modelled
    operations call.  The service reads the script through the host of
    lines 55-82, that is, through the state of the mode. *)
Record LanguageService := {
  getCompletionsAtPosition : ModeState -> jsstring -> Z -> option CompletionInfo;
  getNavigationBarItems : ModeState -> jsstring -> option (list NavigationBarItem);
  getDefinitionAtPosition : ModeState -> jsstring -> Z -> option (list DocumentSpan);
  getReferencesAtPosition : ModeState -> jsstring -> Z -> option (list DocumentSpan)
}.

Definition convertRange (document : TextDocument) (span : Span) : Range :=
  match span_start span with
  | None =>
      let pos := positionAt document 0 in
      Range_create pos pos
  | Some s =>
      let startPosition := positionAt document s in
      let endPosition := positionAt document (s + default 0%Z (span_length span)) in
      Range_create startPosition endPosition
  end.

Definition one_of (kind : jsstring) (cases : list string) : bool :=
  existsb (fun c => bool_decide (kind = lit c)) cases.

Definition convertKind (kind : jsstring) : CompletionItemKind :=
  if one_of kind ["primitive type"; "keyword"]%string then CIK_Keyword
  else if one_of kind ["var"; "local var"]%string then CIK_Variable
  else if one_of kind ["property"; "getter"; "setter"]%string then CIK_Field
  else if one_of kind ["function"; "method"; "construct"; "call"; "index"]%string
       then CIK_Function
  else if one_of kind ["enum"]%string then CIK_Enum
  else if one_of kind ["module"]%string then CIK_Module
  else if one_of kind ["class"]%string then CIK_Class
  else if one_of kind ["interface"]%string then CIK_Interface
  else if one_of kind ["warning"]%string then CIK_File
  else CIK_Property.

Definition convertSymbolKind (kind : jsstring) : SymbolKind :=
  if one_of kind ["var"; "local var"; "const"]%string then SK_Variable
  else if one_of kind ["function"; "local function"]%string then SK_Function
  else if one_of kind ["enum"]%string then SK_Enum
  else if one_of kind ["module"]%string then SK_Module
  else if one_of kind ["class"]%string then SK_Class
  else if one_of kind ["interface"]%string then SK_Interface
  else if one_of kind ["method"]%string then SK_Method
  else if one_of kind ["property"; "getter"; "setter"]%string then SK_Property
  else SK_Variable.

(** The two variables of [findDocumentSymbols] that [collectSymbols]
    updates: the array [result] and the key set [existing], an object
    without prototype whose properties are all [true]. *)
Record Collected := {
  result : list SymbolInformation;
  existing : gset jsstring
}.

(** The key [sig] of line 213. *)
Definition signature (text kind : jsstring) (span0 : TextSpan) : jsstring :=
  text ++ kind ++ of_Z (ts_start span0).

Definition symbolOf (documentUri : jsstring) (current : TextDocument)
    (text kind : jsstring) (span0 : TextSpan) (containerLabel : option jsstring)
  : SymbolInformation :=
  {| name := text;
     symbol_kind := convertSymbolKind kind;
     location := {| loc_uri := documentUri;
                    loc_range := convertRange current (span_of span0) |};
     containerName := containerLabel |}.

Section Mode.
(** [jsDocuments.get]: the embedded JavaScript document of a host
    document, served by the language model cache. *)
Variable jsDocuments_get : TextDocument -> TextDocument.
Variable jsLanguageService : LanguageService.
(** [getWordAtText] of [../utils/strings], with [JS_WORD_REGEX]. *)
Variable getWordAtText : jsstring -> Z -> TextSpan.
(** [prettier.format] of the prettier package, and what it throws. *)
Variable PrettierError : Type.
Variable prettier_format :
  jsstring -> jsstring -> Z -> bool -> Prettier.attempt PrettierError jsstring.

Definition updateCurrentTextDocument (doc : TextDocument) (st : ModeState)
  : ModeState :=
  let changed :=
    match currentTextDocument st with
    | None => true
    | Some current =>
        negb (bool_decide (uri doc = uri current))
        || negb (version doc =? version current)%Z
    end in
  if changed
  then {| currentTextDocument := Some (jsDocuments_get doc);
          scriptFileVersion := scriptFileVersion st + 1;
          jsDocumentsGets := jsDocumentsGets st ++ [doc] |}
  else st.

(** Calling a method of [currentTextDocument]: a [TypeError] while the
    variable is still [undefined]. *)
Definition withCurrent' {A : Type} (current : option TextDocument)
    (k : TextDocument -> A) : outcome A :=
  match current with
  | Some current => Returned (k current)
  | None => TypeError
  end.

Definition withCurrent {A : Type} (st : ModeState)
    (k : TextDocument -> A) : outcome A :=
  withCurrent' (currentTextDocument st) k.

Definition doComplete (document : TextDocument) (position : Position)
    (st : ModeState) : outcome (CompletionList CompletionItem) * ModeState :=
  let st := updateCurrentTextDocument document st in
  (withCurrent st (fun current =>
     let offset := offsetAt current position in
     match getCompletionsAtPosition jsLanguageService st FILE_NAME offset with
     | None => {| isIncomplete := false; items := [] |}
     | Some completions =>
         let replaceRange :=
           convertRange current
             (span_of (getWordAtText (getText current None) offset)) in
         {| isIncomplete := false;
            items :=
              List.map (fun entry =>
                {| item_uri := uri document;
                   item_position := position;
                   label := entry_name entry;
                   sortText := entry_sortText entry;
                   kind := convertKind (entry_kind entry);
                   textEdit := {| edit_range := replaceRange;
                                  newText := entry_name entry |};
                   data := {| data_languageId := lit "javascript";
                              data_uri := uri document;
                              data_offset := offset |} |})
                (entries completions) |}
     end), st).

(** [current] is the value of [currentTextDocument], read when a
    symbol is built. *)
Fixpoint collectSymbols (documentUri : jsstring)
    (current : option TextDocument)
    (item : NavigationBarItem) (containerLabel : option jsstring)
    (acc : Collected) {struct item} : outcome Collected :=
  match item with
  | NavItem text kind spans childItems =>
      match spans with
      | [] => TypeError
      | span0 :: _ =>
          let sig := signature text kind span0 in
          let visited :=
            if negb (bool_decide (kind = lit "script"))
               && negb (bool_decide (sig ∈ existing acc))
            then withCurrent' current (fun current =>
                   ({| result := result acc
                                 ++ [symbolOf documentUri current text kind
                                       span0 containerLabel];
                       existing := {[ sig ]} ∪ existing acc |},
                    Some text))
            else Returned (acc, containerLabel) in
          match visited with
          | TypeError => TypeError
          | Returned (acc, containerLabel) =>
              match childItems with
              | Some children =>
                  (fix each (children : list NavigationBarItem)
                       (acc : Collected) : outcome Collected :=
                     match children with
                     | [] => Returned acc
                     | child :: rest =>
                         match collectSymbols documentUri current child
                                 containerLabel acc with
                         | Returned acc => each rest acc
                         | TypeError => TypeError
                         end
                     end) children acc
              | None => Returned acc
              end
          end
      end
  end.

(** The loop over a list of items, each collected under the same
    label: line 236 for the top-level items, lines 230-232 for the
    children of an item. *)
Fixpoint collectAll (documentUri : jsstring) (current : option TextDocument)
    (items : list NavigationBarItem) (containerLabel : option jsstring)
    (acc : Collected) : outcome Collected :=
  match items with
  | [] => Returned acc
  | item :: rest =>
      match collectSymbols documentUri current item containerLabel acc with
      | Returned acc => collectAll documentUri current rest containerLabel acc
      | TypeError => TypeError
      end
  end.

Definition findDocumentSymbols (document : TextDocument) (st : ModeState)
  : outcome (list SymbolInformation) * ModeState :=
  let st := updateCurrentTextDocument document st in
  (match getNavigationBarItems jsLanguageService st FILE_NAME with
   | Some items =>
       match collectAll (uri document) (currentTextDocument st) items None
               {| result := []; existing := ∅ |} with
       | Returned acc => Returned (result acc)
       | TypeError => TypeError
       end
   | None => Returned []
   end, st).

Definition toLocations (document current : TextDocument)
    (found : list DocumentSpan) : list Location :=
  List.map
    (fun d => {| loc_uri := uri document;
                 loc_range := convertRange current (span_of (textSpan d)) |})
    (List.filter (fun d => bool_decide (fileName d = FILE_NAME)) found).

(** [null] is [None]. *)
Definition findDefinition (document : TextDocument) (position : Position)
    (st : ModeState) : outcome (option (list Location)) * ModeState :=
  let st := updateCurrentTextDocument document st in
  (withCurrent st (fun current =>
     match getDefinitionAtPosition jsLanguageService st FILE_NAME
             (offsetAt current position) with
     | Some definition => Some (toLocations document current definition)
     | None => None
     end), st).

Definition findReferences (document : TextDocument) (position : Position)
    (st : ModeState) : outcome (list Location) * ModeState :=
  let st := updateCurrentTextDocument document st in
  (withCurrent st (fun current =>
     match getReferencesAtPosition jsLanguageService st FILE_NAME
             (offsetAt current position) with
     | Some references => toLocations document current references
     | None => []
     end), st).

Definition format (document : TextDocument) (range : Range)
    (formattingOption : FormattingOptions)
  : Prettier.attempt PrettierError (option (list TextEdit)) :=
  formatRange
    (fun text => Prettier.formatOrRaise prettier_format text (lit "babel"))
    document range formattingOption.

(** The requests of the mode that read the script. *)
Inductive Request :=
| DoValidation (document : TextDocument)
| DoComplete (document : TextDocument) (position : Position)
| DoResolve (document : TextDocument)
| DoHover (document : TextDocument) (position : Position)
| DoSignatureHelp (document : TextDocument) (position : Position)
| FindDocumentHighlight (document : TextDocument) (position : Position)
| FindDocumentSymbols (document : TextDocument)
| FindDefinition (document : TextDocument) (position : Position)
| FindReferences (document : TextDocument) (position : Position).

Definition requestDocument (r : Request) : TextDocument :=
  match r with
  | DoValidation d | DoComplete d _ | DoResolve d | DoHover d _
  | DoSignatureHelp d _ | FindDocumentHighlight d _
  | FindDocumentSymbols d | FindDefinition d _ | FindReferences d _ => d
  end.

(** The state the mode is left in by a request.  The results of
    [doValidation], [doResolve], [doHover], [doSignatureHelp] and
    [findDocumentHighlight] are not modelled; what they do to the state
    is the call of [updateCurrentTextDocument] they start with. *)
Definition serve (st : ModeState) (r : Request) : ModeState :=
  match r with
  | DoComplete d p => snd (doComplete d p st)
  | FindDocumentSymbols d => snd (findDocumentSymbols d st)
  | FindDefinition d p => snd (findDefinition d p st)
  | FindReferences d p => snd (findReferences d p st)
  | DoValidation d | DoResolve d | DoHover d _ | DoSignatureHelp d _
  | FindDocumentHighlight d _ => updateCurrentTextDocument d st
  end.
End Mode.

End JavascriptMode.

(* ===================================================================== *)
(** * modes/lessMode.ts *)
(* ===================================================================== *)

Module LessMode.

Section Mode.
(** The stylesheet and completion item types of the LESS language
    service, and the two methods [doComplete] calls. *)
Variable Stylesheet : Type.
Variable Item : Type.
Variable parseStylesheet : TextDocument -> Stylesheet.
Variable service_doComplete :
  TextDocument -> Position -> Stylesheet -> CompletionList Item.
(** [documentRegions.get(document).getEmbeddedDocument("less")]. *)
Variable getEmbeddedDocument : TextDocument -> TextDocument.
(** [prettier.format] of the prettier package, and what it throws. *)
Variable PrettierError : Type.
Variable prettier_format :
  jsstring -> jsstring -> Z -> bool -> Prettier.attempt PrettierError jsstring.

Definition doComplete (document : TextDocument) (position : Position)
  : CompletionList Item :=
  let embedded := getEmbeddedDocument document in
  let stylesheet := parseStylesheet embedded in
  service_doComplete embedded position stylesheet.

Definition format (document : TextDocument) (range : Range)
    (formattingOption : FormattingOptions)
  : Prettier.attempt PrettierError (option (list TextEdit)) :=
  formatRange
    (fun text => Prettier.formatOrRaise prettier_format text (lit "less"))
    document range formattingOption.
End Mode.

End LessMode.

(* ===================================================================== *)
(** * modes/javascriptMode.ts: the language service host *)
(* ===================================================================== *)

Module JavascriptHost.

(** Modelled from the spec: [startsWith] of [../utils/strings] is not
    among the sources; [startsWith(haystack, needle)] tells whether
    [haystack] begins with [needle]. *)
Definition startsWith (haystack needle : jsstring) : bool :=
  starts_with needle haystack.

Definition getScriptFileNames : list jsstring :=
  [JavascriptMode.FILE_NAME; lit "jquery"].

Definition getScriptVersion (st : JavascriptMode.ModeState) (fileName : jsstring)
  : jsstring :=
  if bool_decide (fileName = JavascriptMode.FILE_NAME)
  then of_Z (JavascriptMode.scriptFileVersion st)
  else lit "1".

(** [s.substring(start, end)] for integer arguments: both are clamped to
    the string, and swapped when [start] is the larger. *)
Definition substring (s : jsstring) (start finish : Z) : jsstring :=
  let len := Z.of_nat (length s) in
  let a := Z.min (Z.max start 0) len in
  let b := Z.min (Z.max finish 0) len in
  take (Z.to_nat (Z.max a b - Z.min a b)) (drop (Z.to_nat (Z.min a b)) s).

(** The snapshot object closes over [text]; [getChangeRange] always
    yields [undefined]. *)
Record ScriptSnapshot := { snapshot_text : jsstring }.

Definition snapshot_getText (snapshot : ScriptSnapshot) (start finish : Z)
  : jsstring :=
  substring (snapshot_text snapshot) start finish.

Definition snapshot_getLength (snapshot : ScriptSnapshot) : Z :=
  Z.of_nat (length (snapshot_text snapshot)).

Section Host.
(** The parameters of the library loader. *)
Variable join : jsstring -> jsstring -> jsstring.
Variable serverFolder : jsstring.

Definition getScriptSnapshot (fs : JavascriptLibs.FileSystem) (fileName : jsstring)
    (st : JavascriptMode.ModeState) (libs : JavascriptLibs.LibState)
  : outcome ScriptSnapshot * JavascriptLibs.LibState :=
  if startsWith fileName (lit "vscode:")
  then
    if bool_decide (fileName = JavascriptMode.FILE_NAME)
    then (JavascriptMode.withCurrent st
            (fun current => {| snapshot_text := getText current None |}), libs)
    else (Returned {| snapshot_text := lit "" |}, libs)
  else
    let '(text, libs) := JavascriptLibs.loadLibrary join serverFolder fs fileName libs in
    (Returned {| snapshot_text := text |}, libs).
End Host.

End JavascriptHost.

(* ===================================================================== *)
(** * modes/javascriptMode.ts: signature help *)
(* ===================================================================== *)

Module JavascriptSignature.

Record ParameterInformation := {
  parameter_label : jsstring;
  parameter_documentation : jsstring
}.

(** [documentation] is set to [undefined] and never assigned. *)
Record SignatureInformation := {
  signature_label : jsstring;
  signature_documentation : option jsstring;
  signature_parameters : list ParameterInformation
}.

Record SignatureHelp := {
  activeSignature : Z;
  activeParameter : Z;
  signatures : list SignatureInformation
}.

Section Help.
(** The display parts of the TypeScript service and
    [ts.displayPartsToString]. *)
Variable Parts : Type.
Variable displayPartsToString : Parts -> jsstring.

Record SignatureHelpParameter := {
  displayParts : Parts;
  documentation : Parts
}.

Record SignatureHelpItem := {
  prefixDisplayParts : Parts;
  separatorDisplayParts : Parts;
  suffixDisplayParts : Parts;
  parameters : list SignatureHelpParameter
}.

Record SignatureHelpItems := {
  help_items : list SignatureHelpItem;
  selectedItemIndex : Z;
  argumentIndex : Z
}.

Variable jsDocuments_get : TextDocument -> TextDocument.
Variable getSignatureHelpItems :
  JavascriptMode.ModeState -> jsstring -> Z -> option SignatureHelpItems.

(** The loop of lines 174-185 from index [i] on; [a_length] is the
    length of the whole array. *)
Fixpoint eachParameter (item : SignatureHelpItem) (a_length : Z) (i : Z)
    (rest : list SignatureHelpParameter) (signature : SignatureInformation)
  : SignatureInformation :=
  match rest with
  | [] => signature
  | p :: rest =>
      let label := displayPartsToString (displayParts p) in
      let parameter :=
        {| parameter_label := label;
           parameter_documentation := displayPartsToString (documentation p) |} in
      let signature :=
        {| signature_label := signature_label signature ++ label;
           signature_documentation := signature_documentation signature;
           signature_parameters := signature_parameters signature ++ [parameter] |} in
      let signature :=
        if (i <? a_length - 1)%Z
        then {| signature_label :=
                  signature_label signature
                  ++ displayPartsToString (separatorDisplayParts item);
                signature_documentation := signature_documentation signature;
                signature_parameters := signature_parameters signature |}
        else signature in
      eachParameter item a_length (i + 1) rest signature
  end.

(** The body of the loop of lines 166-188 for one item. *)
Definition signatureOf (item : SignatureHelpItem) : SignatureInformation :=
  let signature :=
    {| signature_label := lit "" ++ displayPartsToString (prefixDisplayParts item);
       signature_documentation := None;
       signature_parameters := [] |} in
  let signature :=
    eachParameter item (Z.of_nat (length (parameters item))) 0 (parameters item)
      signature in
  {| signature_label :=
       signature_label signature ++ displayPartsToString (suffixDisplayParts item);
     signature_documentation := signature_documentation signature;
     signature_parameters := signature_parameters signature |}.

(** [null] is [None]. *)
Definition doSignatureHelp (document : TextDocument) (position : Position)
    (st : JavascriptMode.ModeState)
  : outcome (option SignatureHelp) * JavascriptMode.ModeState :=
  let st := JavascriptMode.updateCurrentTextDocument jsDocuments_get document st in
  (JavascriptMode.withCurrent st (fun current =>
     match getSignatureHelpItems st JavascriptMode.FILE_NAME
             (offsetAt current position) with
     | Some signHelp =>
         Some {| activeSignature := selectedItemIndex signHelp;
                 activeParameter := argumentIndex signHelp;
                 signatures := List.map signatureOf (help_items signHelp) |}
     | None => None
     end), st).
End Help.

End JavascriptSignature.

(* ===================================================================== *)
(** * Vocabulary of the statements *)
(* ===================================================================== *)

(** The reading of C1 as it is stated: every line of the formatter output
    that survives the trimming is a line of the returned text under the
    prefix [indent] and nothing more. *)
Definition lines_carry_indent (indent out returned : jsstring) : Prop :=
  Forall (fun l => In (indent ++ l) (split LF returned)) (split LF (trimEnd out)).

(** Parts found one after the other: each starts no earlier than [lo],
    is not empty, and the next ones start where it ends or later. *)
Fixpoint chain (lo : Z) (parts : list Peek.IncludePart) : Prop :=
  match parts with
  | [] => True
  | p :: ps =>
      (lo <= Peek.start p)%Z /\ (Peek.start p < Peek.end' p)%Z
      /\ chain (Peek.end' p) ps
  end.

(** The line of the cursor, as [peekFileDefinition] reads it. *)
Definition cursorLine (document : TextDocument) (position : Position) : jsstring :=
  getText document
    (Some (Range_create (Position_create (line position) 0)
                        (Position_create (line position + 1) 0))).


(** What a returned symbol is built from: the text, the kind and the
    first span of an item, and the container label it was visited
    with. *)
Record Entry := {
  e_text : jsstring;
  e_kind : jsstring;
  e_span : JavascriptMode.TextSpan;
  e_label : option jsstring
}.

Definition entry_signature (e : Entry) : jsstring :=
  JavascriptMode.signature (e_text e) (e_kind e) (e_span e).

(** The key of the deduplication: name, kind as the service reports it,
    start offset of the first span. *)
Definition entry_key (e : Entry) : jsstring * jsstring * Z :=
  (e_text e, e_kind e, JavascriptMode.ts_start (e_span e)).

(** The signature of an entry is computed from its key. *)
Definition key_signature (k : jsstring * jsstring * Z) : jsstring :=
  let '(text, kind, start) := k in text ++ kind ++ of_Z start.

Definition entry_symbol (documentUri : jsstring) (current : TextDocument)
    (e : Entry) : JavascriptMode.SymbolInformation :=
  JavascriptMode.symbolOf documentUri current
    (e_text e) (e_kind e) (e_span e) (e_label e).

(** The children of an item, none when [childItems] is [undefined]. *)
Definition children_of (childItems : option (list JavascriptMode.NavigationBarItem))
  : list JavascriptMode.NavigationBarItem :=
  match childItems with
  | Some children => children
  | None => []
  end.

(** An item and all the items below it, parents first. *)
Fixpoint nodes (item : JavascriptMode.NavigationBarItem)
  : list JavascriptMode.NavigationBarItem :=
  match item with
  | JavascriptMode.NavItem _ _ _ childItems =>
      item :: match childItems with
              | Some children => List.flat_map nodes children
              | None => []
              end
  end.

Definition entry_of_node (e : Entry) (n : JavascriptMode.NavigationBarItem) : Prop :=
  JavascriptMode.nav_text n = e_text e
  /\ JavascriptMode.nav_kind n = e_kind e
  /\ head (JavascriptMode.nav_spans n) = Some (e_span e)
  /\ JavascriptMode.nav_kind n <> lit "script".

(** The flattening without deduplication: every item that is not of
    kind [script], parents first, labelled with the text of its parent;
    an item of kind [script] hands the label it was given down to its
    children. *)
Fixpoint flatten (containerLabel : option jsstring)
    (item : JavascriptMode.NavigationBarItem) : list Entry :=
  match item with
  | JavascriptMode.NavItem text kind spans childItems =>
      let script := bool_decide (kind = lit "script") in
      (if script then []
       else match spans with
            | span0 :: _ =>
                [ {| e_text := text; e_kind := kind; e_span := span0;
                     e_label := containerLabel |} ]
            | [] => []
            end)
      ++ match childItems with
         | Some children =>
             List.flat_map (flatten (if script then containerLabel else Some text))
               children
         | None => []
         end
  end.

(** The reading of C8 as it is stated, for one parent and one child: the
    symbol returned for the child names the parent as its container. *)
Definition child_carries_parent_name
    (parent child : JavascriptMode.NavigationBarItem)
    (returned : list JavascriptMode.SymbolInformation) : Prop :=
  exists symbol,
    symbol ∈ returned
    /\ JavascriptMode.name symbol = JavascriptMode.nav_text child
    /\ JavascriptMode.containerName symbol = Some (JavascriptMode.nav_text parent).

(** The visit of one item whose first span is [span0], lines 213-227,
    while [currentTextDocument] is [current]: the variables and the label
    for the children afterwards. *)
Definition visited (documentUri : jsstring) (current : TextDocument)
    (text kind : jsstring) (span0 : JavascriptMode.TextSpan)
    (containerLabel : option jsstring) (acc : JavascriptMode.Collected)
  : JavascriptMode.Collected * option jsstring :=
  if negb (bool_decide (kind = lit "script"))
     && negb (bool_decide (JavascriptMode.signature text kind span0
                           ∈ JavascriptMode.existing acc))
  then ({| JavascriptMode.result :=
             JavascriptMode.result acc
             ++ [JavascriptMode.symbolOf documentUri current text kind span0
                   containerLabel];
           JavascriptMode.existing :=
             {[ JavascriptMode.signature text kind span0 ]}
             ∪ JavascriptMode.existing acc |},
        Some text)
  else (acc, containerLabel).

(** Every item, at any depth, has a first span. *)
Definition spans_present (items : list JavascriptMode.NavigationBarItem) : Prop :=
  Forall (fun n => JavascriptMode.nav_spans n <> []) (List.flat_map nodes items).

Definition from_nodes (items : list JavascriptMode.NavigationBarItem) (e : Entry)
  : Prop :=
  exists n, In n (List.flat_map nodes items) /\ entry_of_node e n.

(** What the collection maintains: the symbols come from entries with
    distinct signatures, all of them recorded in [existing]. *)
Definition tracked (documentUri : jsstring) (current : TextDocument)
    (acc : JavascriptMode.Collected) (entries : list Entry) : Prop :=
  JavascriptMode.result acc = entry_symbol documentUri current <$> entries
  /\ NoDup (entry_signature <$> entries)
  /\ (forall e, e ∈ entries -> entry_signature e ∈ JavascriptMode.existing acc).

(** What the collection does when no signature occurs twice: the symbols
    of [item_entries] are appended and their signatures recorded. *)
Definition collects_exactly (documentUri : jsstring) (current : TextDocument)
    (item_entries : list Entry) (acc : JavascriptMode.Collected)
    (outcome' : outcome JavascriptMode.Collected) : Prop :=
  exists acc',
    outcome' = Returned acc'
    /\ JavascriptMode.result acc'
       = JavascriptMode.result acc ++ (entry_symbol documentUri current <$> item_entries)
    /\ (forall s, s ∈ JavascriptMode.existing acc'
                  <-> s ∈ JavascriptMode.existing acc
                      \/ s ∈ entry_signature <$> item_entries).

(** An optional carriage return followed by spaces and tabs only: what
    may stand between the last line feed of a text and its end for the
    two to count as the indentation context. *)
Definition indentation (rest : jsstring) : Prop :=
  exists blanks,
    Forall (fun c => c = SPACE \/ c = TAB) blanks
    /\ (rest = blanks \/ rest = CR :: blanks).

(** The reading of C5 as it is stated, for a text that is not blank: the
    operation returns a list of one edit, on the requested range. *)
Definition returns_single_edit {Error : Type} (range : Range)
    (answer : Prettier.attempt Error (option (list TextEdit))) : Prop :=
  exists edit,
    answer = Prettier.Done (Some [edit]) /\ edit_range edit = range.



(* ===================================================================== *)
(** * Sample inputs *)
(* ===================================================================== *)

Definition join_slash (a b : jsstring) : jsstring := a ++ lit "/" ++ b.

(** A file system on which nothing exists. *)
Definition empty_disk : JavascriptLibs.FileSystem :=
  {| JavascriptLibs.existsSync := fun _ => false;
     JavascriptLibs.readFileSync := fun _ => None |}.

Definition fresh_libs : JavascriptLibs.LibState :=
  {| JavascriptLibs.contents := ∅;
     JavascriptLibs.console := [];
     JavascriptLibs.fsCalls := [] |}.

(** A formatter that answers [a;] and a line feed, as prettier does for
    the statement [a]. *)
Definition prettier_a (text parser : jsstring) (tabWidth : Z) (useTabs : bool)
  : jsstring := lit "a;" ++ [LF].

Definition four_spaces : FormattingOptions := {| tabSize := 4; insertSpaces := true |}.

(** A document of one line, whatever range is asked for. *)
Definition one_line_document (u : jsstring) (v : Z) (lineText : jsstring)
  : TextDocument :=
  {| uri := u; version := v;
     getText := fun _ => lineText;
     offsetAt := fun p => character p;
     positionAt := fun o => Position_create 0 o |}.

Definition layout_view : TextDocument :=
  one_line_document (lit "file:///w/resources/views/home.blade.php") 1
    (lit "  @include('layouts.app')").

Definition layout_options : Peek.PeekOptions :=
  {| Peek.settings := {| Peek.blade_views_path := lit "resources/views" |};
     Peek.workspaceFolders :=
       Some [ {| Peek.folder_uri := lit "file:///w"; Peek.folder_name := lit "w" |} ] |}.

Definition layout_part : Peek.IncludePart :=
  {| Peek.start := 2; Peek.end' := 24;
     Peek.text := lit "@include('layouts.app'";
     Peek.template := lit "layouts.app" |}.

(** A language service that knows nothing. *)
Definition silent_service : JavascriptMode.LanguageService :=
  {| JavascriptMode.getCompletionsAtPosition := fun _ _ _ => None;
     JavascriptMode.getNavigationBarItems := fun _ _ => None;
     JavascriptMode.getDefinitionAtPosition := fun _ _ _ => None;
     JavascriptMode.getReferencesAtPosition := fun _ _ _ => None |}.

Definition no_word (text : jsstring) (offset : Z) : JavascriptMode.TextSpan :=
  {| JavascriptMode.ts_start := offset; JavascriptMode.ts_length := 0 |}.

(** The mode right after [getJavascriptMode] has returned. *)
Definition fresh_mode : JavascriptMode.ModeState :=
  {| JavascriptMode.currentTextDocument := None;
     JavascriptMode.scriptFileVersion := 0;
     JavascriptMode.jsDocumentsGets := [] |}.

Definition three_requests : list JavascriptMode.Request :=
  [ JavascriptMode.DoComplete layout_view {| line := 0; character := 3 |};
    JavascriptMode.FindDocumentSymbols layout_view;
    JavascriptMode.FindReferences layout_view {| line := 0; character := 5 |} ].

(** The navigation tree of the script [function f() {}]: the item of the
    script itself, and the function below it. *)
Definition function_f : JavascriptMode.NavigationBarItem :=
  JavascriptMode.NavItem (lit "f") (lit "function")
    [ {| JavascriptMode.ts_start := 0; JavascriptMode.ts_length := 15 |} ] None.

Definition global_script : JavascriptMode.NavigationBarItem :=
  JavascriptMode.NavItem (lit "<global>") (lit "script")
    [ {| JavascriptMode.ts_start := 0; JavascriptMode.ts_length := 15 |} ]
    (Some [function_f]).

Definition navigation_service : JavascriptMode.LanguageService :=
  {| JavascriptMode.getCompletionsAtPosition := fun _ _ _ => None;
     JavascriptMode.getNavigationBarItems := fun _ _ => Some [global_script];
     JavascriptMode.getDefinitionAtPosition := fun _ _ _ => None;
     JavascriptMode.getReferencesAtPosition := fun _ _ _ => None |}.

(** A formatter that answers the empty string. *)
Definition prettier_nothing (text parser : jsstring) (tabWidth : Z) (useTabs : bool)
  : jsstring := lit "".

(** Two items that differ in name and start offset and share the
    concatenation [a12]. *)
Definition colliding_service : JavascriptMode.LanguageService :=
  {| JavascriptMode.getCompletionsAtPosition := fun _ _ _ => None;
     JavascriptMode.getNavigationBarItems := fun _ _ =>
       Some [ JavascriptMode.NavItem (lit "a1") (lit "")
                [ {| JavascriptMode.ts_start := 2; JavascriptMode.ts_length := 2 |} ] None;
              JavascriptMode.NavItem (lit "a") (lit "")
                [ {| JavascriptMode.ts_start := 12; JavascriptMode.ts_length := 1 |} ]
                None ];
     JavascriptMode.getDefinitionAtPosition := fun _ _ _ => None;
     JavascriptMode.getReferencesAtPosition := fun _ _ _ => None |}.

(** A script item that comes without a span. *)
Definition spanless_service : JavascriptMode.LanguageService :=
  {| JavascriptMode.getCompletionsAtPosition := fun _ _ _ => None;
     JavascriptMode.getNavigationBarItems := fun _ _ =>
       Some [ JavascriptMode.NavItem (lit "<global>") (lit "script") [] None ];
     JavascriptMode.getDefinitionAtPosition := fun _ _ _ => None;
     JavascriptMode.getReferencesAtPosition := fun _ _ _ => None |}.

Definition view_of_line (lineText : jsstring) : TextDocument :=
  one_line_document (lit "file:///w/resources/views/home.blade.php") 1 lineText.

(** A formatter that cannot parse the statement [var = ;], as prettier
    cannot, and answers any other text as it is. *)
Definition prettier_strict (text parser : jsstring) (tabWidth : Z) (useTabs : bool)
  : Prettier.attempt jsstring jsstring :=
  if bool_decide (text = lit "var = ;")
  then Prettier.Raised (lit "SyntaxError")
  else Prettier.Done text.

Definition first_line : Range :=
  {| start_ := {| line := 0; character := 0 |};
     end_ := {| line := 1; character := 0 |} |}.

(** The navigation items of the script [class C { m() {} }] as the
    TypeScript service lists them: the item of the script with the class
    below it, then the class again as an item of its own, with its
    method below it. *)
Definition method_m : JavascriptMode.NavigationBarItem :=
  JavascriptMode.NavItem (lit "m") (lit "method")
    [ {| JavascriptMode.ts_start := 10; JavascriptMode.ts_length := 6 |} ] (Some []).

Definition class_C_listed : JavascriptMode.NavigationBarItem :=
  JavascriptMode.NavItem (lit "C") (lit "class")
    [ {| JavascriptMode.ts_start := 0; JavascriptMode.ts_length := 18 |} ] (Some []).

Definition class_C : JavascriptMode.NavigationBarItem :=
  JavascriptMode.NavItem (lit "C") (lit "class")
    [ {| JavascriptMode.ts_start := 0; JavascriptMode.ts_length := 18 |} ]
    (Some [method_m]).

Definition class_service : JavascriptMode.LanguageService :=
  {| JavascriptMode.getCompletionsAtPosition := fun _ _ _ => None;
     JavascriptMode.getNavigationBarItems := fun _ _ =>
       Some [ JavascriptMode.NavItem (lit "<global>") (lit "script")
                [ {| JavascriptMode.ts_start := 0; JavascriptMode.ts_length := 18 |} ]
                (Some [class_C_listed]);
              class_C ];
     JavascriptMode.getDefinitionAtPosition := fun _ _ _ => None;
     JavascriptMode.getReferencesAtPosition := fun _ _ _ => None |}.

(* ===================================================================== *)
(** * Properties of the library loader *)
(* ===================================================================== *)

Section LoaderFacts.
Import JavascriptLibs.
Variable join : jsstring -> jsstring -> jsstring.
Variable serverFolder : jsstring.

Abbreviation loadLibrary := (loadLibrary join serverFolder).
Abbreviation resolve := (resolve join serverFolder).

Lemma contents_get_set c name content :
  name <> PROTO -> contents_get (contents_set c name content) name = Some content.
Proof.
  intros Hne. unfold contents_get, contents_set.
  repeat case_decide; try contradiction. apply lookup_insert_eq.
Qed.

Lemma loadLibrary_hit fs name st content :
  contents_get (contents st) name = Some content ->
  loadLibrary fs name st = (content, st).
Proof. intros H. unfold JavascriptLibs.loadLibrary. rewrite H. reflexivity. Qed.

(** A read failure is absorbed: the loader always returns a string. For
    every name other than [__proto__], a failed load is logged once and
    remembered, and loading the name again touches neither the file
    system nor the console, whatever the file system has become. *)
Lemma loadLibrary_failure_memoized fs fs' name st :
  name <> PROTO ->
  contents_get (contents st) name = None ->
  readFileSync fs (fst (resolve fs name)) = None ->
  let '(content1, st1) := loadLibrary fs name st in
  let '(content2, st2) := loadLibrary fs' name st1 in
  content1 = lit ""
  /\ console st1 = console st ++ [unable_message name (fst (resolve fs name))]
  /\ content2 = lit ""
  /\ st2 = st1.
Proof.
  intros Hne Hmiss Hread.
  unfold JavascriptLibs.loadLibrary at 1. rewrite Hmiss.
  destruct (resolve fs name) as [libPath probes] eqn:Hres.
  simpl in Hread. rewrite Hread.
  rewrite (loadLibrary_hit fs' name _ (lit "")).
  - auto.
  - simpl. apply contents_get_set, Hne.
Qed.
End LoaderFacts.

(** C2, at the library name [__proto__]: the failed load is not
    remembered.  On a disk without the file, the first call logs the
    failure and returns the empty string, the object [contents] is left
    without an entry for the name, and the second call probes and reads
    the file system again and logs a second time. *)
Theorem loadLibrary_proto_reads_again :
  let load := JavascriptLibs.loadLibrary join_slash (lit "/srv") empty_disk in
  let '(content1, st1) := load JavascriptLibs.PROTO fresh_libs in
  let '(content2, st2) := load JavascriptLibs.PROTO st1 in
  content1 = lit "" /\ content2 = lit ""
  /\ JavascriptLibs.contents_get (JavascriptLibs.contents st1) JavascriptLibs.PROTO = None
  /\ length (JavascriptLibs.console st1) = 1%nat
  /\ length (JavascriptLibs.console st2) = 2%nat
  /\ length (JavascriptLibs.fsCalls st1) = 2%nat
  /\ JavascriptLibs.fsCalls st2 =
       JavascriptLibs.fsCalls st1
       ++ [JavascriptLibs.ExistsSync JavascriptLibs.PROTO;
           JavascriptLibs.ReadFileSync
             (join_slash (JavascriptLibs.TYPESCRIPT_LIB_SOURCE join_slash (lit "/srv"))
                JavascriptLibs.PROTO)].
Proof. vm_compute. repeat split; reflexivity. Qed.

(** C3: for a name that is not memoized, the one file read is the jquery
    definitions file when the name is [jquery] (the disk is not probed),
    otherwise the name itself when it exists as a path, otherwise the name
    joined to the TypeScript library folder; the content returned is what
    that read yields, or the empty string when it fails. *)
Theorem loadLibrary_resolution_order
    (join : jsstring -> jsstring -> jsstring) (serverFolder : jsstring)
    (fs : JavascriptLibs.FileSystem) (name : jsstring)
    (st : JavascriptLibs.LibState) :
  JavascriptLibs.contents_get (JavascriptLibs.contents st) name = None ->
  exists libPath probes,
    JavascriptLibs.fsCalls (snd (JavascriptLibs.loadLibrary join serverFolder fs name st))
    = JavascriptLibs.fsCalls st ++ probes ++ [JavascriptLibs.ReadFileSync libPath]
    /\ fst (JavascriptLibs.loadLibrary join serverFolder fs name st)
       = default (lit "") (JavascriptLibs.readFileSync fs libPath)
    /\ (name = lit "jquery" ->
        libPath = JavascriptLibs.JQUERY_PATH join serverFolder /\ probes = [])
    /\ (name <> lit "jquery" ->
        probes = [JavascriptLibs.ExistsSync name]
        /\ (JavascriptLibs.existsSync fs name = true -> libPath = name)
        /\ (JavascriptLibs.existsSync fs name = false ->
            libPath = join (JavascriptLibs.TYPESCRIPT_LIB_SOURCE join serverFolder) name)).
Proof.
  intros Hmiss. unfold JavascriptLibs.loadLibrary. rewrite Hmiss.
  unfold JavascriptLibs.resolve.
  destruct (decide (name = lit "jquery")) as [Hj|Hj].
  - exists (JavascriptLibs.JQUERY_PATH join serverFolder), [].
    destruct (JavascriptLibs.readFileSync fs _); simpl; repeat split; tauto.
  - destruct (JavascriptLibs.existsSync fs name) eqn:Hex.
    + exists name, [JavascriptLibs.ExistsSync name].
      destruct (JavascriptLibs.readFileSync fs name); simpl;
        repeat split; try tauto; congruence.
    + exists (join (JavascriptLibs.TYPESCRIPT_LIB_SOURCE join serverFolder) name),
        [JavascriptLibs.ExistsSync name].
      destruct (JavascriptLibs.readFileSync fs _); simpl;
        repeat split; try tauto; congruence.
Qed.

Lemma loadLibrary_resolution_order_witness :
  exists libPath probes,
    JavascriptLibs.fsCalls
      (snd (JavascriptLibs.loadLibrary join_slash (lit "/srv") empty_disk
              (lit "lib.dom.d.ts") fresh_libs))
    = JavascriptLibs.fsCalls fresh_libs ++ probes ++ [JavascriptLibs.ReadFileSync libPath]
    /\ fst (JavascriptLibs.loadLibrary join_slash (lit "/srv") empty_disk
              (lit "lib.dom.d.ts") fresh_libs)
       = default (lit "") (JavascriptLibs.readFileSync empty_disk libPath)
    /\ (lit "lib.dom.d.ts" = lit "jquery" ->
        libPath = JavascriptLibs.JQUERY_PATH join_slash (lit "/srv") /\ probes = [])
    /\ (lit "lib.dom.d.ts" <> lit "jquery" ->
        probes = [JavascriptLibs.ExistsSync (lit "lib.dom.d.ts")]
        /\ (JavascriptLibs.existsSync empty_disk (lit "lib.dom.d.ts") = true ->
            libPath = lit "lib.dom.d.ts")
        /\ (JavascriptLibs.existsSync empty_disk (lit "lib.dom.d.ts") = false ->
            libPath = join_slash
                        (JavascriptLibs.TYPESCRIPT_LIB_SOURCE join_slash (lit "/srv"))
                        (lit "lib.dom.d.ts"))).
Proof.
  apply (loadLibrary_resolution_order join_slash (lit "/srv") empty_disk
           (lit "lib.dom.d.ts") fresh_libs).
  reflexivity.
Defined.

(* ===================================================================== *)
(** * Properties of strings *)
(* ===================================================================== *)

Section StringFacts.

Lemma trimEnd_spec s :
  exists w, s = trimEnd s ++ w /\ Forall (fun c => is_white_space c = true) w.
Proof.
  induction s as [|c r (w & Hr & Hw)]; [exists []; split; [reflexivity|constructor]|].
  cbn [trimEnd]. destruct (trimEnd r) as [|x r'] eqn:Et.
  - destruct (is_white_space c) eqn:Ec.
    + exists (c :: r). split; [reflexivity|].
      constructor; [exact Ec|]. rewrite Hr. exact Hw.
    + exists w. split; [|exact Hw]. rewrite Hr at 1. reflexivity.
  - exists w. split; [|exact Hw]. rewrite Hr at 1. reflexivity.
Qed.

Lemma trimEnd_nil_iff s :
  trimEnd s = [] <-> Forall (fun c => is_white_space c = true) s.
Proof.
  induction s as [|c r IH]; cbn [trimEnd]; [split; [constructor|reflexivity]|].
  destruct (trimEnd r) as [|x r'] eqn:Et.
  - destruct (is_white_space c) eqn:Ec.
    + split; [|reflexivity]. intros _. constructor; [exact Ec|]. now apply IH.
    + split; [discriminate|]. intros H. inversion H; congruence.
  - split; [discriminate|]. intros H. inversion H; subst.
    assert (x :: r' = []) by now apply IH. discriminate.
Qed.

Lemma split_not_nil sep s : split sep s <> [].
Proof.
  destruct s as [|c r]; cbn [split]; [discriminate|].
  destruct (c =? sep)%N; [discriminate|].
  destruct (split sep r); discriminate.
Qed.

Lemma split_no_sep sep s : Forall (fun l => ~ In sep l) (split sep s).
Proof.
  induction s as [|c r IH]; cbn [split]; [repeat constructor; intros []|].
  destruct (c =? sep)%N eqn:Ec.
  - constructor; [intros []|exact IH].
  - apply N.eqb_neq in Ec.
    destruct (split sep r) as [|l ls].
    + repeat constructor. intros [H|[]]. congruence.
    + inversion IH; subst. constructor; [|assumption].
      intros [H|H]; [congruence|contradiction].
Qed.

Lemma split_single sep p : ~ In sep p -> split sep p = [p].
Proof.
  induction p as [|c p IH]; intros Hp; cbn [split]; [reflexivity|].
  destruct (N.eqb_spec c sep) as [->|Hc]; [exfalso; apply Hp; now left|].
  rewrite IH; [reflexivity|]. intros H; apply Hp; now right.
Qed.

Lemma split_app_sep sep p rest :
  ~ In sep p -> split sep (p ++ sep :: rest) = p :: split sep rest.
Proof.
  induction p as [|c p IH]; intros Hp; cbn [split app].
  - now rewrite N.eqb_refl.
  - destruct (N.eqb_spec c sep) as [->|Hc]; [exfalso; apply Hp; now left|].
    rewrite IH; [reflexivity|]. intros H; apply Hp; now right.
Qed.

Lemma split_join sep ls :
  ls <> [] -> Forall (fun l => ~ In sep l) ls -> split sep (join [sep] ls) = ls.
Proof.
  induction ls as [|p ps IH]; [congruence|]. intros _ Hall.
  inversion Hall as [|? ? Hp Hps]; subst.
  destruct ps as [|q ps].
  - cbn [join]. now apply split_single.
  - change (join [sep] (p :: q :: ps)) with (p ++ sep :: join [sep] (q :: ps)).
    rewrite split_app_sep by assumption. f_equal. now apply IH.
Qed.

(** Joining the pieces cut at a character with another character is
    replacing the one by the other. *)
Lemma join_split_replace sep by_ s :
  join [by_] (split sep s) = List.map (fun c => if (c =? sep)%N then by_ else c) s.
Proof.
  induction s as [|c r IH]; cbn [split]; [reflexivity|].
  cbn [List.map]. rewrite <- IH.
  destruct (c =? sep)%N.
  - pose proof (split_not_nil sep r).
    destruct (split sep r) as [|l ls]; [contradiction|]. reflexivity.
  - pose proof (split_not_nil sep r).
    destruct (split sep r) as [|l ls]; [contradiction|].
    destruct ls; reflexivity.
Qed.

End StringFacts.

(* ===================================================================== *)
(** * Properties of the formatter wrapper *)
(* ===================================================================== *)

Section PrettierFacts.
Import Prettier.

Lemma exec_tagIndent_spec text a :
  exec_tagIndent text = Some a ->
  exists pre blanks,
    a = [LF :: blanks; LF :: blanks]
    /\ text = pre ++ LF :: blanks
    /\ cr_blanks_to_end blanks = true.
Proof.
  revert a; induction text as [|c r IH]; intros a; cbn [exec_tagIndent];
    [discriminate|].
  destruct ((c =? LF)%N && cr_blanks_to_end r) eqn:E.
  - apply andb_true_iff in E as [Ec Eb]. apply N.eqb_eq in Ec. subst c.
    intros [= <-]. exists [], r. auto.
  - intros H. destruct (IH _ H) as (pre & blanks & Ha & Ht & Hb).
    exists (c :: pre), blanks. subst. auto.
Qed.

Lemma tagIndent_spec text :
  (exists pre, text = pre ++ tagIndent text)
  /\ (tagIndent text = []
      \/ exists blanks, tagIndent text = LF :: blanks
                        /\ cr_blanks_to_end blanks = true).
Proof.
  unfold tagIndent. destruct (exec_tagIndent text) as [a|] eqn:E.
  - destruct (exec_tagIndent_spec _ _ E) as (pre & blanks & -> & Ht & Hb).
    cbn. split; [exists pre; exact Ht|right; exists blanks; auto].
  - cbn. split; [exists text; now rewrite app_nil_r|now left].
Qed.

Lemma remove_all_not_in drop s c :
  drop c = true -> ~ In c (remove_all drop s).
Proof.
  intros Hd Hin. unfold remove_all in Hin. apply filter_In in Hin as [_ H].
  rewrite Hd in H. discriminate.
Qed.

Lemma repeat_space_no_LF count : ~ In LF (repeat (lit " ") count).
Proof.
  unfold repeat. induction (Z.to_nat count) as [|n IH]; cbn; [tauto|].
  intros [H|H]; [discriminate|]. apply IH. exact H.
Qed.

Lemma intdent_no_LF text fo : ~ In LF (intdent text fo).
Proof.
  unfold intdent, prefixIndent, indentUnit. intros H.
  apply in_app_or in H as [H|H].
  - revert H. apply remove_all_not_in. apply N.eqb_refl.
  - destruct (insertSpaces fo).
    + revert H. apply repeat_space_no_LF.
    + destruct H as [H|[]]. discriminate.
Qed.

End PrettierFacts.

(** C1 as stated fails.  The selected text is the statement [a] indented
    by four spaces, a line feed and four more spaces.  The line of the
    returned text that carries the formatter's [a;] is indented by eight
    spaces: the four found in front of the end of the selection and one
    more indentation step. *)
Lemma format_indent_not_exact :
  let text := lit "    a" ++ [LF] ++ lit "    " in
  let returned := Prettier.format prettier_a text (lit "babel") four_spaces in
  split LF returned = [lit ""; lit "        a;"; lit "    "]
  /\ ~ lines_carry_indent (lit "    ")
         (prettier_a text (lit "babel") 4 false) returned.
Proof.
  split; [vm_compute; reflexivity|].
  intros H. vm_compute in H. inversion H as [|? ? Hin _]; subst.
  repeat (destruct Hin as [Hin|Hin]; [discriminate Hin|]). exact Hin.
Qed.

(* ===================================================================== *)
(** * Properties of the template-include peek *)
(* ===================================================================== *)

Section PeekFacts.
Import Peek.

Lemma collect_chain lineText lastIndex :
  chain (Z.of_nat lastIndex) (collect lineText lastIndex).
Proof.
  funelim (collect lineText lastIndex); [|exact I].
  cbn [chain mkPart start end'].
  pose proof (exec_bound _ _ _ _ Hm) as Hb.
  repeat split; try lia.
  rewrite <- Nat2Z.inj_add. assumption.
Qed.

Lemma search_found s i j n :
  search s i = Some (j, n) ->
  (i <= j)%nat /\ match_at (drop (j - i) s) = Some n.
Proof.
  revert i; induction s as [|c r IH]; intros i; cbn [search].
  - cbn. discriminate.
  - destruct (match_at (c :: r)) as [m|] eqn:E.
    + intros H; inversion H; subst. rewrite Nat.sub_diag. auto.
    + intros H. apply IH in H as [Hle H]. split; [lia|].
      replace (j - i)%nat with (S (j - S i)) by lia. exact H.
Qed.

Lemma collect_matches lineText lastIndex part :
  In part (collect lineText lastIndex) ->
  exists index len,
    part = mkPart lineText index len
    /\ match_at (drop index lineText) = Some len.
Proof.
  funelim (collect lineText lastIndex); [|intros []].
  intros [<-|Hin]; [|now apply H].
  exists index, len. split; [reflexivity|].
  pose proof (search_found _ _ _ _ Hm) as [Hle Hfound].
  rewrite drop_drop in Hfound.
  replace index with (lastIndex + (index - lastIndex))%nat at 1 by lia.
  exact Hfound.
Qed.

Lemma chain_weaken lo lo' parts : (lo' <= lo)%Z -> chain lo parts -> chain lo' parts.
Proof. destruct parts; cbn; [tauto|]. intros ? (? & ? & ?). repeat split; auto; lia. Qed.

Lemma chain_In lo parts p :
  chain lo parts -> In p parts -> (lo <= start p /\ start p < end' p)%Z.
Proof.
  revert lo; induction parts as [|q ps IH]; intros lo Hc []; cbn in Hc.
  - subst. tauto.
  - destruct Hc as (? & ? & Hc). specialize (IH _ Hc H). lia.
Qed.

Lemma chain_filter_none lo parts position :
  chain lo parts -> (character position <= lo)%Z ->
  List.filter (spans_cursor position) parts = [].
Proof.
  revert lo; induction parts as [|q ps IH]; intros lo Hc Hle; [reflexivity|].
  cbn in Hc. destruct Hc as (? & ? & Hc). cbn [List.filter].
  unfold spans_cursor at 1.
  destruct (Z.ltb_spec (start q) (character position)); [lia|].
  cbn. apply (IH _ Hc). lia.
Qed.


(** A column on the first code unit of a part, or just behind its
    last, is spanned by no part. *)
Lemma chain_boundary lo parts position p :
  chain lo parts -> In p parts ->
  character position = start p \/ character position = end' p ->
  List.filter (spans_cursor position) parts = [].
Proof.
  revert lo; induction parts as [|q ps IH]; intros lo Hc Hin Hb; [reflexivity|].
  cbn in Hc. destruct Hc as (Hlo & Hq & Hc). cbn [List.filter].
  destruct Hin as [->|Hin].
  - replace (spans_cursor position p) with false.
    + apply (chain_filter_none _ _ _ Hc). lia.
    + symmetry. unfold spans_cursor. apply andb_false_iff.
      destruct Hb as [Hb|Hb]; [left; apply Z.ltb_ge; lia|].
      right. rewrite Z.gtb_ltb. apply Z.ltb_ge. lia.
  - pose proof (chain_In _ _ _ Hc Hin) as [Hge Hlt].
    replace (spans_cursor position q) with false; [now apply (IH _ Hc Hin)|].
    symmetry. unfold spans_cursor. apply andb_false_iff. right.
    rewrite Z.gtb_ltb. apply Z.ltb_ge. lia.
Qed.

Lemma includeParts_chain lineText : chain 0 (includeParts lineText).
Proof.
  unfold includeParts. destruct (truthy lineText && truthy (trim lineText)).
  - apply (collect_chain lineText 0).
  - exact I.
Qed.

End PeekFacts.


(** C10: when no part found on the line of the cursor starts before the
    column of the cursor and ends behind it, the definition is the empty
    list, not [null]; this is the case when the cursor is on the first
    code unit of a part or just behind its last one. *)
Theorem peekFileDefinition_outside
    (document : TextDocument) (position : Position) (options : Peek.PeekOptions) :
  (forall part, In part (Peek.includeParts (cursorLine document position)) ->
                ~ ((Peek.start part < character position)%Z
                   /\ (Peek.end' part > character position)%Z))
  \/ (exists part, In part (Peek.includeParts (cursorLine document position))
                   /\ (character position = Peek.start part
                       \/ character position = Peek.end' part)) ->
  Peek.peekFileDefinition document position options = Some [].
Proof.
  intros H. unfold Peek.peekFileDefinition. fold (cursorLine document position).
  assert (Hnone : List.filter (Peek.spans_cursor position)
                    (Peek.includeParts (cursorLine document position)) = []).
  { destruct H as [Hall|(part & Hin & Hb)].
    - induction (Peek.includeParts (cursorLine document position)) as [|q ps IH];
        [reflexivity|].
      cbn [List.filter]. destruct (Peek.spans_cursor position q) eqn:Eq.
      + exfalso. apply (Hall q); [now left|].
        unfold Peek.spans_cursor in Eq. apply andb_true_iff in Eq as [E1 E2].
        apply Z.ltb_lt in E1. apply Z.gtb_lt in E2. lia.
      + apply IH. intros p Hp. apply Hall. now right.
    - apply (chain_boundary 0 _ position part); auto using includeParts_chain. }
  rewrite Hnone. reflexivity.
Qed.

Lemma peekFileDefinition_outside_witness :
  Peek.peekFileDefinition layout_view {| line := 0; character := 2 |} layout_options
  = Some []
  /\ Peek.peekFileDefinition layout_view {| line := 0; character := 24 |} layout_options
     = Some [].
Proof.
  split.
  - apply peekFileDefinition_outside. right. exists layout_part.
    split; [vm_compute; left; reflexivity|left; reflexivity].
  - apply peekFileDefinition_outside. right. exists layout_part.
    split; [vm_compute; left; reflexivity|right; reflexivity].
Defined.

(* ===================================================================== *)
(** * Properties of the language modes *)
(* ===================================================================== *)

Section JavascriptModeFacts.
Import JavascriptMode.
Variable jsDocuments_get : TextDocument -> TextDocument.
Variable jsLanguageService : LanguageService.
Variable getWordAtText : jsstring -> Z -> TextSpan.

Abbreviation update := (updateCurrentTextDocument jsDocuments_get).

Lemma update_current document st :
  exists current, currentTextDocument (update document st) = Some current.
Proof.
  unfold updateCurrentTextDocument.
  destruct (currentTextDocument st) as [current|] eqn:E.
  - destruct (negb _ || negb _); [eexists; reflexivity|].
    exists current. exact E.
  - eexists; reflexivity.
Qed.

Lemma update_monotone document st :
  (scriptFileVersion st <= scriptFileVersion (update document st))%Z.
Proof.
  unfold updateCurrentTextDocument.
  destruct (match currentTextDocument st with Some _ => _ | None => _ end);
    cbn; lia.
Qed.

Lemma update_changes_only_if_differs document st :
  update document st <> st ->
  match currentTextDocument st with
  | None => True
  | Some current => uri document <> uri current \/ version document <> version current
  end.
Proof.
  unfold updateCurrentTextDocument.
  destruct (currentTextDocument st) as [current|]; [|tauto].
  destruct (decide (uri document = uri current)) as [Hu|Hu]; [|tauto].
  destruct (Z.eqb_spec (version document) (version current)) as [Hv|Hv]; [|tauto].
  rewrite bool_decide_eq_true_2 by assumption. cbn. congruence.
Qed.

(** Once the tracked document carries the identity of the incoming
    one, the update does nothing. *)
Lemma update_same_identity document current st :
  currentTextDocument st = Some current ->
  uri document = uri current -> version document = version current ->
  update document st = st.
Proof.
  intros Hc Hu Hv. unfold updateCurrentTextDocument. rewrite Hc.
  rewrite bool_decide_eq_true_2 by assumption.
  rewrite (proj2 (Z.eqb_eq _ _) Hv). reflexivity.
Qed.

Lemma serve_is_update st r :
  serve jsDocuments_get jsLanguageService getWordAtText st r
  = update (requestDocument r) st.
Proof. destruct r; reflexivity. Qed.

Lemma serve_all_same_identity requests current st :
  currentTextDocument st = Some current ->
  Forall (fun r => uri (requestDocument r) = uri current
                   /\ version (requestDocument r) = version current) requests ->
  fold_left (serve jsDocuments_get jsLanguageService getWordAtText) requests st = st.
Proof.
  intros Hc Hall. induction Hall as [|r rest [Hu Hv] _ IH]; [reflexivity|].
  cbn [fold_left]. rewrite serve_is_update.
  rewrite (update_same_identity _ current) by assumption. exact IH.
Qed.

End JavascriptModeFacts.

(** C4: the script-file version never decreases, and a request changes
    it only when no document is tracked yet or the uri or the version of
    the incoming document differs from the tracked one.  When the
    embedded document that the cache returns carries the uri and the
    version of its host document, a sequence of requests for documents of
    one uri and version leaves the mode in the state the first request
    left it in: the version is bumped at most once and the embedded
    document is fetched at most once. *)
Theorem scriptFileVersion_bumped_on_change_only
    (jsDocuments_get : TextDocument -> TextDocument)
    (jsLanguageService : JavascriptMode.LanguageService)
    (getWordAtText : jsstring -> Z -> JavascriptMode.TextSpan)
    (requests : list JavascriptMode.Request) (u : jsstring) (v : Z)
    (st : JavascriptMode.ModeState) :
  (forall d, uri (jsDocuments_get d) = uri d
             /\ version (jsDocuments_get d) = version d) ->
  Forall (fun r => uri (JavascriptMode.requestDocument r) = u
                   /\ version (JavascriptMode.requestDocument r) = v) requests ->
  let serve := JavascriptMode.serve jsDocuments_get jsLanguageService getWordAtText in
  let update := JavascriptMode.updateCurrentTextDocument jsDocuments_get in
  let st' := fold_left serve requests st in
  (forall r st0, serve st0 r = update (JavascriptMode.requestDocument r) st0)
  /\ (forall document st0,
      (JavascriptMode.scriptFileVersion st0
          <= JavascriptMode.scriptFileVersion (update document st0))%Z
      /\ (JavascriptMode.scriptFileVersion (update document st0)
          <> JavascriptMode.scriptFileVersion st0 ->
          match JavascriptMode.currentTextDocument st0 with
          | None => True
          | Some current =>
              uri document <> uri current \/ version document <> version current
          end))
  /\ (JavascriptMode.scriptFileVersion st <= JavascriptMode.scriptFileVersion st'
      <= JavascriptMode.scriptFileVersion st + 1)%Z
  /\ (length (JavascriptMode.jsDocumentsGets st')
      <= length (JavascriptMode.jsDocumentsGets st) + 1)%nat
  /\ (forall r rest, requests = r :: rest -> st' = serve st r).
Proof.
  intros Hid Hsame serve update st'.
  assert (Hfirst : forall r rest, requests = r :: rest -> st' = serve st r).
  { intros r rest ->. subst st'. cbn [fold_left].
    inversion Hsame as [|? ? [Hu Hv] Hrest]; subst.
    subst serve. rewrite serve_is_update.
    destruct (update_current jsDocuments_get (JavascriptMode.requestDocument r) st)
      as [current Hc].
    apply (serve_all_same_identity _ _ _ _ current); [exact Hc|].
    assert (Hcur : uri current = uri (JavascriptMode.requestDocument r)
                   /\ version current = version (JavascriptMode.requestDocument r)).
    { revert Hc. unfold JavascriptMode.updateCurrentTextDocument.
      destruct (JavascriptMode.currentTextDocument st) as [old|] eqn:Eold.
      - destruct (bool_decide (uri (JavascriptMode.requestDocument r) = uri old))
          eqn:Eu;
          destruct (version (JavascriptMode.requestDocument r) =? version old)%Z
            eqn:Ev; cbn; try (intros [= <-]; apply Hid).
        rewrite Eold. intros [= <-].
        apply bool_decide_eq_true in Eu. apply Z.eqb_eq in Ev. auto.
      - cbn. intros [= <-]. apply Hid. }
    destruct Hcur as [Hcu Hcv].
    revert Hrest. apply List.Forall_impl. intros a [? ?]. split; congruence. }
  split; [intros r st0; subst serve update; apply serve_is_update|].
  split; [|destruct requests as [|r rest]].
  - intros document st0. subst serve update.
    split; [apply update_monotone|].
    intros Hne. apply (update_changes_only_if_differs jsDocuments_get).
    congruence.
  - subst st'. cbn. repeat split; try lia. intros; discriminate.
  - pose proof (Hfirst r rest eq_refl) as Hst.
    split; [|split; [|exact Hfirst]]; rewrite Hst; subst serve;
      rewrite serve_is_update; unfold JavascriptMode.updateCurrentTextDocument;
      destruct (match JavascriptMode.currentTextDocument st with
                | Some _ => _ | None => _ end); cbn; try lia.
    rewrite length_app. cbn. lia.
Qed.

Lemma scriptFileVersion_bumped_on_change_only_witness :
  let st' := fold_left (JavascriptMode.serve (fun d => d) silent_service no_word)
               three_requests fresh_mode in
  (0 <= JavascriptMode.scriptFileVersion st' <= 0 + 1)%Z
  /\ (length (JavascriptMode.jsDocumentsGets st') <= 0 + 1)%nat.
Proof.
  assert (Hid : forall d : TextDocument,
             uri ((fun d => d) d) = uri d /\ version ((fun d => d) d) = version d)
    by (intros d; split; reflexivity).
  assert (Hsame : Forall (fun r => uri (JavascriptMode.requestDocument r)
                                   = uri layout_view
                                   /\ version (JavascriptMode.requestDocument r) = 1%Z)
                    three_requests)
    by (repeat constructor).
  pose proof (scriptFileVersion_bumped_on_change_only (fun d => d)
                silent_service no_word three_requests
                (uri layout_view) 1 fresh_mode Hid Hsame) as H.
  intros st'. exact (conj (proj1 (proj2 (proj2 H))) (proj1 (proj2 (proj2 (proj2 H))))).
Defined.

(** C6: when the TypeScript service yields no completions ([undefined],
    or no entry), [doComplete] of the JavaScript mode returns the list
    that is not incomplete and has no items, and raises nothing.
    [doComplete] of the LESS mode returns the list of the LESS service as
    it is, hence that same list when the service yields it. *)
Theorem doComplete_empty_when_no_completions
    (jsDocuments_get : TextDocument -> TextDocument)
    (jsLanguageService : JavascriptMode.LanguageService)
    (getWordAtText : jsstring -> Z -> JavascriptMode.TextSpan)
    (Stylesheet Item : Type)
    (parseStylesheet : TextDocument -> Stylesheet)
    (service_doComplete : TextDocument -> Position -> Stylesheet -> CompletionList Item)
    (getEmbeddedDocument : TextDocument -> TextDocument)
    (document : TextDocument) (position : Position)
    (st : JavascriptMode.ModeState) :
  let st' := JavascriptMode.updateCurrentTextDocument jsDocuments_get document st in
  ((forall current,
       JavascriptMode.currentTextDocument st' = Some current ->
       match JavascriptMode.getCompletionsAtPosition jsLanguageService st'
               JavascriptMode.FILE_NAME (offsetAt current position) with
       | None => True
       | Some completions => JavascriptMode.entries completions = []
       end) ->
   JavascriptMode.doComplete jsDocuments_get jsLanguageService getWordAtText
     document position st
   = (Returned {| isIncomplete := false; items := [] |}, st'))
  /\ (service_doComplete (getEmbeddedDocument document) position
        (parseStylesheet (getEmbeddedDocument document))
      = {| isIncomplete := false; items := [] |} ->
      LessMode.doComplete Stylesheet Item parseStylesheet service_doComplete
        getEmbeddedDocument document position
      = {| isIncomplete := false; items := [] |}).
Proof.
  intros st'. split.
  - intros Hnone. unfold JavascriptMode.doComplete. fold st'.
    destruct (update_current jsDocuments_get document st) as [current Hc].
    fold st' in Hc. specialize (Hnone current Hc).
    unfold JavascriptMode.withCurrent. rewrite Hc. cbn [JavascriptMode.withCurrent'].
    destruct (JavascriptMode.getCompletionsAtPosition _ _ _ _) as [completions|];
      [|reflexivity].
    rewrite Hnone. reflexivity.
  - intros Hless. unfold LessMode.doComplete. exact Hless.
Qed.

Lemma doComplete_empty_when_no_completions_witness :
  JavascriptMode.doComplete (fun d => d) silent_service no_word layout_view
    {| line := 0; character := 3 |} fresh_mode
  = (Returned {| isIncomplete := false; items := [] |},
     JavascriptMode.updateCurrentTextDocument (fun d => d) layout_view fresh_mode)
  /\ LessMode.doComplete unit unit (fun _ => tt)
       (fun _ _ _ => {| isIncomplete := false; items := [] |}) (fun d => d)
       layout_view {| line := 0; character := 3 |}
     = {| isIncomplete := false; items := [] |}.
Proof.
  refine (let H := doComplete_empty_when_no_completions (fun d => d) silent_service
                     no_word unit unit (fun _ => tt)
                     (fun _ _ _ => {| isIncomplete := false; items := [] |})
                     (fun d => d) layout_view {| line := 0; character := 3 |}
                     fresh_mode in _).
  split.
  - apply (proj1 H). intros current _. exact I.
  - apply (proj2 H). reflexivity.
Defined.

(** C7: the locations of [findDefinition] and of [findReferences] are
    built from the entries that the service reports for the synthetic
    script file, in their order, the entries of any other file being
    dropped, and every location carries the uri of the host document.
    [findDefinition] returns [null] and [findReferences] the empty list
    when the service reports nothing. *)
Theorem locations_stay_in_host_document
    (jsDocuments_get : TextDocument -> TextDocument)
    (jsLanguageService : JavascriptMode.LanguageService)
    (document : TextDocument) (position : Position)
    (st : JavascriptMode.ModeState) :
  let st' := JavascriptMode.updateCurrentTextDocument jsDocuments_get document st in
  let locate current found :=
    List.map (fun d => {| loc_uri := uri document;
                          loc_range := JavascriptMode.convertRange current
                                         (JavascriptMode.span_of
                                            (JavascriptMode.textSpan d)) |})
      (List.filter
         (fun d => bool_decide (JavascriptMode.fileName d = JavascriptMode.FILE_NAME))
         found) in
  exists current,
    JavascriptMode.currentTextDocument st' = Some current
    /\ JavascriptMode.findDefinition jsDocuments_get jsLanguageService
         document position st
       = (Returned
            (locate current <$>
             JavascriptMode.getDefinitionAtPosition jsLanguageService st'
               JavascriptMode.FILE_NAME (offsetAt current position)), st')
    /\ JavascriptMode.findReferences jsDocuments_get jsLanguageService
         document position st
       = (Returned
            (default []
               (locate current <$>
                JavascriptMode.getReferencesAtPosition jsLanguageService st'
                  JavascriptMode.FILE_NAME (offsetAt current position))), st')
    /\ (forall found,
          Forall (fun l => loc_uri l = uri document) (locate current found)
          /\ length (locate current found)
             = length (List.filter
                         (fun d => bool_decide (JavascriptMode.fileName d
                                                = JavascriptMode.FILE_NAME)) found)).
Proof.
  intros st' locate.
  destruct (update_current jsDocuments_get document st) as [current Hc].
  fold st' in Hc. exists current. split; [exact Hc|].
  unfold JavascriptMode.findDefinition, JavascriptMode.findReferences,
    JavascriptMode.withCurrent.
  fold st'. rewrite Hc. cbn [JavascriptMode.withCurrent'].
  split; [|split].
  - destruct (JavascriptMode.getDefinitionAtPosition _ _ _ _); reflexivity.
  - destruct (JavascriptMode.getReferencesAtPosition _ _ _ _); reflexivity.
  - intros found. subst locate. cbn beta. split.
    + apply List.Forall_forall. intros l Hl.
      apply in_map_iff in Hl as (d & <- & _). reflexivity.
    + apply length_map.
Qed.

(* ===================================================================== *)
(** * Document symbols: the flattening of the navigation tree *)
(* ===================================================================== *)

(** Induction on a navigation item with the property available for all
    its children. *)
Lemma NavigationBarItem_nested_ind (P : JavascriptMode.NavigationBarItem -> Prop) :
  (forall text kind spans childItems,
      Forall P (children_of childItems) ->
      P (JavascriptMode.NavItem text kind spans childItems)) ->
  forall item, P item.
Proof.
  intros step. fix IH 1. intros [text kind spans childItems].
  apply step. destruct childItems as [children|]; [|constructor].
  cbn [children_of]. revert children. fix IHl 1.
  intros [|child rest]; constructor; [apply IH|apply IHl].
Qed.

(** For the script [function f() {}] the one symbol returned is the function, and it
    names no container: the parent of the function is the item of kind
    [script], which is not returned and hands down the label it was
    visited with, none at the top level. *)
Lemma script_child_has_no_container :
  fst (JavascriptMode.findDocumentSymbols (fun d => d) navigation_service
         layout_view fresh_mode)
  = Returned
      [ {| JavascriptMode.name := lit "f";
           JavascriptMode.symbol_kind := JavascriptMode.SK_Function;
           JavascriptMode.location :=
             {| loc_uri := uri layout_view;
                loc_range := {| start_ := {| line := 0; character := 0 |};
                                end_ := {| line := 0; character := 15 |} |} |};
           JavascriptMode.containerName := None |} ]
  /\ forall returned,
       fst (JavascriptMode.findDocumentSymbols (fun d => d) navigation_service
              layout_view fresh_mode) = Returned returned ->
       ~ child_carries_parent_name global_script function_f returned.
Proof.
  assert (E : fst (JavascriptMode.findDocumentSymbols (fun d => d) navigation_service
                     layout_view fresh_mode)
              = Returned
                  [ {| JavascriptMode.name := lit "f";
                       JavascriptMode.symbol_kind := JavascriptMode.SK_Function;
                       JavascriptMode.location :=
                         {| loc_uri := uri layout_view;
                            loc_range := {| start_ := {| line := 0; character := 0 |};
                                            end_ := {| line := 0; character := 15 |} |} |};
                       JavascriptMode.containerName := None |} ]).
  { vm_compute. reflexivity. }
  split; [exact E|].
  intros returned Hr. rewrite E in Hr. injection Hr as <-.
  intros (symbol & Hin & _ & Hc).
  apply list_elem_of_singleton in Hin. subst symbol. discriminate Hc.
Qed.

Section SymbolFacts.
Import JavascriptMode.
Variable documentUri : jsstring.
Variable current : TextDocument.

Abbreviation collectSymbols' := (collectSymbols documentUri (Some current)).
Abbreviation collectAll' := (collectAll documentUri (Some current)).
Abbreviation symbol := (entry_symbol documentUri current).

Lemma collectSymbols_unfold text kind span0 spans childItems containerLabel acc :
  collectSymbols' (NavItem text kind (span0 :: spans) childItems) containerLabel acc
  = collectAll' (children_of childItems)
      (snd (visited documentUri current text kind span0 containerLabel acc))
      (fst (visited documentUri current text kind span0 containerLabel acc)).
Proof.
  cbn [collectSymbols]. unfold visited.
  destruct (negb (bool_decide (kind = lit "script"))
            && negb (bool_decide (signature text kind span0 ∈ existing acc)));
    cbn [withCurrent' fst snd];
    (destruct childItems as [children|]; [|reflexivity]); cbn [children_of];
    match goal with
    | |- _ = collectAll' _ ?l ?a => generalize a
    end;
    induction children as [|child rest IH]; intros a; cbn [collectAll];
    try reflexivity;
    destruct (collectSymbols _ _ child _ a); auto.
Qed.

Lemma collectSymbols_no_span text kind childItems containerLabel acc :
  collectSymbols' (NavItem text kind [] childItems) containerLabel acc = TypeError.
Proof. reflexivity. Qed.

Lemma nodes_children text kind spans childItems :
  nodes (NavItem text kind spans childItems)
  = NavItem text kind spans childItems :: List.flat_map nodes (children_of childItems).
Proof. destruct childItems; reflexivity. Qed.

Lemma from_nodes_mono items items' e :
  (forall n, In n (List.flat_map nodes items) -> In n (List.flat_map nodes items')) ->
  from_nodes items e -> from_nodes items' e.
Proof. intros Hsub (n & Hn & He). exists n. auto. Qed.

Lemma collectAll_tracked items :
  Forall (fun item =>
    forall containerLabel acc entries,
      spans_present [item] -> tracked documentUri current acc entries ->
      exists acc' new,
        collectSymbols' item containerLabel acc = Returned acc'
        /\ tracked documentUri current acc' (entries ++ new)
        /\ Forall (from_nodes [item]) new) items ->
  forall containerLabel acc entries,
    spans_present items -> tracked documentUri current acc entries ->
    exists acc' new,
      collectAll' items containerLabel acc = Returned acc'
      /\ tracked documentUri current acc' (entries ++ new)
      /\ Forall (from_nodes items) new.
Proof.
  induction 1 as [|item rest Hitem _ IH]; intros containerLabel acc entries Hsp Htr.
  - exists acc, []. rewrite app_nil_r. repeat split; try apply Htr. constructor.
  - unfold spans_present in Hsp. cbn [List.flat_map] in Hsp.
    apply Forall_app in Hsp as [Hsp1 Hsp2].
    destruct (Hitem containerLabel acc entries) as (acc1 & new1 & E1 & Htr1 & Hfrom1);
      [unfold spans_present; cbn [List.flat_map]; now rewrite app_nil_r|exact Htr|].
    destruct (IH containerLabel acc1 (entries ++ new1) Hsp2 Htr1)
      as (acc2 & new2 & E2 & Htr2 & Hfrom2).
    exists acc2, (new1 ++ new2). cbn [collectAll]. rewrite E1, E2.
    split; [reflexivity|]. split; [now rewrite app_assoc|].
    apply Forall_app. split.
    + revert Hfrom1. apply List.Forall_impl. intros e. apply from_nodes_mono.
      intros n. cbn [List.flat_map]. rewrite app_nil_r. intros Hn.
      apply in_or_app. now left.
    + revert Hfrom2. apply List.Forall_impl. intros e. apply from_nodes_mono.
      intros n Hn. cbn [List.flat_map]. apply in_or_app. now right.
Qed.

Lemma collectSymbols_tracked item :
  forall containerLabel acc entries,
    spans_present [item] -> tracked documentUri current acc entries ->
    exists acc' new,
      collectSymbols' item containerLabel acc = Returned acc'
      /\ tracked documentUri current acc' (entries ++ new)
      /\ Forall (from_nodes [item]) new.
Proof.
  induction item as [text kind spans childItems IH] using NavigationBarItem_nested_ind.
  intros containerLabel acc entries Hsp Htr.
  unfold spans_present in Hsp. cbn [List.flat_map] in Hsp.
  rewrite app_nil_r, nodes_children in Hsp.
  apply Forall_cons in Hsp as [Hspan Hsp].
  destruct spans as [|span0 spans]; [now cbn in Hspan|].
  rewrite collectSymbols_unfold.
  pose proof (collectAll_tracked _ IH) as Hall.
  assert (Hsub : forall n, In n (List.flat_map nodes (children_of childItems)) ->
                   In n (List.flat_map nodes
                           [NavItem text kind (span0 :: spans) childItems])).
  { intros n Hn. cbn [List.flat_map]. rewrite app_nil_r, nodes_children.
    now right. }
  unfold visited.
  destruct (negb (bool_decide (kind = lit "script"))
            && negb (bool_decide (signature text kind span0 ∈ existing acc))) eqn:G;
    cbn [fst snd].
  - apply andb_true_iff in G as [Gk Gs].
    apply negb_true_iff, bool_decide_eq_false in Gk, Gs.
    set (e0 := {| e_text := text; e_kind := kind; e_span := span0;
                  e_label := containerLabel |}).
    destruct Htr as (Hres & Hnd & Hex).
    destruct (Hall (Some text)
                {| result := result acc
                             ++ [symbolOf documentUri current text kind span0
                                   containerLabel];
                   existing := {[ signature text kind span0 ]} ∪ existing acc |}
                (entries ++ [e0]) Hsp)
      as (acc' & new & E & Htr' & Hfrom).
    { repeat split; cbn [result existing].
      - rewrite Hres, fmap_app. reflexivity.
      - rewrite fmap_app. apply NoDup_app. split; [exact Hnd|].
        split; [|apply NoDup_singleton].
        intros s Hs Hs'. apply list_elem_of_singleton in Hs'. subst s.
        apply list_elem_of_fmap in Hs as (e & He & Hin).
        apply Gs. change (signature text kind span0) with (entry_signature e0).
        rewrite He. now apply Hex.
      - intros e He. apply elem_of_app in He as [He|He].
        + apply elem_of_union. right. now apply Hex.
        + apply list_elem_of_singleton in He. subst e.
          apply elem_of_union. left. now apply elem_of_singleton. }
    exists acc', (e0 :: new). split; [exact E|].
    split; [rewrite <- (app_assoc entries [e0] new) in Htr'; exact Htr'|].
    constructor.
    + exists (NavItem text kind (span0 :: spans) childItems).
      split; [cbn [List.flat_map]; rewrite app_nil_r, nodes_children; now left|].
      repeat split; assumption.
    + revert Hfrom. apply List.Forall_impl. intros e. now apply from_nodes_mono.
  - destruct (Hall containerLabel acc entries Hsp Htr)
      as (acc' & new & E & Htr' & Hfrom).
    exists acc', new. split; [exact E|]. split; [exact Htr'|].
    revert Hfrom. apply List.Forall_impl. intros e. now apply from_nodes_mono.
Qed.

Lemma flatten_unfold containerLabel text kind span0 spans childItems :
  flatten containerLabel (NavItem text kind (span0 :: spans) childItems)
  = (if bool_decide (kind = lit "script") then []
     else [ {| e_text := text; e_kind := kind; e_span := span0;
               e_label := containerLabel |} ])
    ++ List.flat_map
         (flatten (if bool_decide (kind = lit "script")
                   then containerLabel else Some text))
         (children_of childItems).
Proof. destruct childItems; reflexivity. Qed.

Lemma collectAll_exact items :
  Forall (fun item =>
    forall containerLabel acc,
      spans_present [item] ->
      NoDup (entry_signature <$> flatten containerLabel item) ->
      (forall e, e ∈ flatten containerLabel item ->
                 entry_signature e ∉ existing acc) ->
      collects_exactly documentUri current (flatten containerLabel item) acc
        (collectSymbols' item containerLabel acc)) items ->
  forall containerLabel acc,
    spans_present items ->
    NoDup (entry_signature <$> List.flat_map (flatten containerLabel) items) ->
    (forall e, e ∈ List.flat_map (flatten containerLabel) items ->
               entry_signature e ∉ existing acc) ->
    collects_exactly documentUri current (List.flat_map (flatten containerLabel) items) acc
      (collectAll' items containerLabel acc).
Proof.
  induction 1 as [|item rest Hitem _ IH]; intros containerLabel acc Hsp Hnd Hfresh.
  - exists acc. cbn. rewrite app_nil_r. repeat split; auto.
    intros [H|H]; [exact H|]. now apply elem_of_nil in H.
  - unfold spans_present in Hsp. cbn [List.flat_map] in Hsp, Hnd, Hfresh |- *.
    apply Forall_app in Hsp as [Hsp1 Hsp2].
    rewrite fmap_app in Hnd. apply NoDup_app in Hnd as (Hnd1 & Hdisj & Hnd2).
    destruct (Hitem containerLabel acc) as (acc1 & E1 & Hres1 & Hex1).
    { unfold spans_present; cbn [List.flat_map]; now rewrite app_nil_r. }
    { exact Hnd1. }
    { intros e He. apply Hfresh. apply elem_of_app. now left. }
    destruct (IH containerLabel acc1 Hsp2 Hnd2) as (acc2 & E2 & Hres2 & Hex2).
    { intros e He Hin. apply Hex1 in Hin as [Hin|Hin].
      - revert Hin. apply Hfresh. apply elem_of_app. now right.
      - apply (Hdisj _ Hin). now apply list_elem_of_fmap_2. }
    exists acc2. cbn [collectAll]. rewrite E1, E2. split; [reflexivity|].
    split.
    + rewrite Hres2, Hres1, fmap_app, app_assoc. reflexivity.
    + intros s. rewrite Hex2, Hex1, fmap_app, elem_of_app. tauto.
Qed.

Lemma collectSymbols_exact item :
  forall containerLabel acc,
    spans_present [item] ->
    NoDup (entry_signature <$> flatten containerLabel item) ->
    (forall e, e ∈ flatten containerLabel item -> entry_signature e ∉ existing acc) ->
    collects_exactly documentUri current (flatten containerLabel item) acc (collectSymbols' item containerLabel acc).
Proof.
  induction item as [text kind spans childItems IH] using NavigationBarItem_nested_ind.
  intros containerLabel acc Hsp Hnd Hfresh.
  unfold spans_present in Hsp. cbn [List.flat_map] in Hsp.
  rewrite app_nil_r, nodes_children in Hsp.
  apply Forall_cons in Hsp as [Hspan Hsp].
  destruct spans as [|span0 spans]; [now cbn in Hspan|].
  rewrite collectSymbols_unfold. rewrite flatten_unfold in Hnd, Hfresh |- *.
  pose proof (collectAll_exact _ IH) as Hall.
  unfold visited.
  destruct (bool_decide (kind = lit "script")) eqn:Gk; cbn [negb andb fst snd app].
  - apply (Hall containerLabel acc Hsp Hnd Hfresh).
  - set (e0 := {| e_text := text; e_kind := kind; e_span := span0;
                  e_label := containerLabel |}) in *.
    cbn [app] in Hnd, Hfresh.
    rewrite fmap_cons in Hnd. apply NoDup_cons in Hnd as [Hnew Hnd].
    assert (Gs : bool_decide (signature text kind span0 ∈ existing acc) = false).
    { apply bool_decide_eq_false. apply (Hfresh e0). now left. }
    rewrite Gs. cbn [negb fst snd].
    destruct (Hall (Some text)
                {| result := result acc
                             ++ [symbolOf documentUri current text kind span0
                                   containerLabel];
                   existing := {[ signature text kind span0 ]} ∪ existing acc |}
                Hsp Hnd)
      as (acc' & E & Hres & Hex).
    { intros e He Hin. cbn [existing] in Hin.
      apply elem_of_union in Hin as [Hin|Hin].
      - apply elem_of_singleton in Hin. apply Hnew.
        change (signature text kind span0) with (entry_signature e0) in Hin.
        rewrite <- Hin. now apply list_elem_of_fmap_2.
      - revert Hin. apply Hfresh. now right. }
    exists acc'. split; [exact E|]. cbn [result existing] in Hres, Hex. split.
    + rewrite Hres, <- app_assoc. reflexivity.
    + intros s. rewrite Hex, fmap_cons, elem_of_cons, elem_of_union, elem_of_singleton.
      change (signature text kind span0) with (entry_signature e0). tauto.
Qed.

Lemma flatten_from_nodes item :
  forall containerLabel e, e ∈ flatten containerLabel item -> from_nodes [item] e.
Proof.
  induction item as [text kind spans childItems IH] using NavigationBarItem_nested_ind.
  intros containerLabel e He.
  assert (Hchildren : forall label,
             e ∈ List.flat_map (flatten label) (children_of childItems) ->
             from_nodes [NavItem text kind spans childItems] e).
  { intros label Hin. apply list_elem_of_In, in_flat_map in Hin as (c & Hc & Hin).
    rewrite List.Forall_forall in IH.
    destruct (IH c Hc label e) as (n & Hn & Hof); [now apply list_elem_of_In|].
    exists n. split; [|exact Hof].
    cbn [List.flat_map] in Hn |- *. rewrite app_nil_r in Hn |- *.
    rewrite nodes_children. right. apply in_flat_map. eauto. }
  destruct childItems as [children|]; cbn [flatten] in He;
    apply elem_of_app in He as [He|He];
    try (now apply (Hchildren _ He)); try (now apply elem_of_nil in He);
    (destruct (bool_decide (kind = lit "script")) eqn:Gk;
     [now apply elem_of_nil in He|]);
    (destruct spans as [|span0 spans]; [now apply elem_of_nil in He|]);
    apply list_elem_of_singleton in He; subst e;
    apply bool_decide_eq_false in Gk;
    (eexists; split; [cbn [List.flat_map nodes]; left; reflexivity|]);
    repeat split; assumption.
Qed.

End SymbolFacts.

Lemma entry_signature_key (entries : list Entry) :
  entry_signature <$> entries = key_signature <$> (entry_key <$> entries).
Proof. rewrite <- list_fmap_compose. reflexivity. Qed.

Lemma flat_map_from_nodes items containerLabel e :
  e ∈ List.flat_map (flatten containerLabel) items -> from_nodes items e.
Proof.
  intros He. apply list_elem_of_In, in_flat_map in He as (item & Hitem & He).
  destruct (flatten_from_nodes item containerLabel e) as (n & Hn & Hof);
    [now apply list_elem_of_In|].
  exists n. split; [|exact Hof]. apply in_flat_map. exists item. split; [exact Hitem|].
  cbn [List.flat_map] in Hn. now rewrite app_nil_r in Hn.
Qed.

(** When every item that the service reports has a span,
    [findDocumentSymbols] returns symbols built from items of the
    navigation tree that are not of kind [script], no two of them from
    items with the same name, kind (as the service names it) and start
    offset of the first span.  When the tree holds no two such items with
    one signature, the symbols are those of all of them, parents first,
    each labelled as [flatten] labels it. *)
Lemma findDocumentSymbols_flattened
    (jsDocuments_get : TextDocument -> TextDocument)
    (jsLanguageService : JavascriptMode.LanguageService)
    (document : TextDocument) (st : JavascriptMode.ModeState)
    (items : list JavascriptMode.NavigationBarItem) :
  let st' := JavascriptMode.updateCurrentTextDocument jsDocuments_get document st in
  JavascriptMode.getNavigationBarItems jsLanguageService st' JavascriptMode.FILE_NAME
  = Some items ->
  Forall (fun n => JavascriptMode.nav_spans n <> []) (List.flat_map nodes items) ->
  exists current entries,
    JavascriptMode.currentTextDocument st' = Some current
    /\ JavascriptMode.findDocumentSymbols jsDocuments_get jsLanguageService document st
       = (Returned (entry_symbol (uri document) current <$> entries), st')
    /\ NoDup (entry_key <$> entries)
    /\ Forall (fun e => exists n, In n (List.flat_map nodes items) /\ entry_of_node e n)
         entries
    /\ (NoDup (entry_signature <$> List.flat_map (flatten None) items) ->
        entries = List.flat_map (flatten None) items).
Proof.
  intros st' Hitems Hspans.
  destruct (update_current jsDocuments_get document st) as [current Hc].
  fold st' in Hc. exists current.
  unfold JavascriptMode.findDocumentSymbols. fold st'. rewrite Hitems, Hc.
  destruct (decide (NoDup (entry_signature <$> List.flat_map (flatten None) items)))
    as [Hnd|Hnd].
  - exists (List.flat_map (flatten None) items).
    destruct (collectAll_exact (uri document) current items) with
      (containerLabel := @None jsstring)
      (acc := {| JavascriptMode.result := []; JavascriptMode.existing := ∅ |})
      as (acc' & E & Hres & _); auto.
    { apply List.Forall_forall. intros item _. apply collectSymbols_exact. }
    { intros e _. apply not_elem_of_empty. }
    rewrite E, Hres. cbn [JavascriptMode.result app].
    repeat split; auto.
    + rewrite entry_signature_key in Hnd. now apply NoDup_fmap_1 in Hnd.
    + apply List.Forall_forall. intros e He.
      apply (flat_map_from_nodes items None).
      now apply list_elem_of_In.
  - destruct (collectAll_tracked (uri document) current items) with
      (containerLabel := @None jsstring)
      (acc := {| JavascriptMode.result := []; JavascriptMode.existing := ∅ |})
      (entries := @nil Entry)
      as (acc' & entries & E & (Hres & Hnd' & _) & Hfrom); auto.
    { apply List.Forall_forall. intros item _. apply collectSymbols_tracked. }
    { repeat split; [apply NoDup_nil; exact I|].
      intros e He. now apply elem_of_nil in He. }
    exists entries. rewrite E, Hres. cbn [app] in *.
    repeat split; auto; [|contradiction].
    rewrite entry_signature_key in Hnd'. now apply NoDup_fmap_1 in Hnd'.
Qed.

(** An item reported twice is returned once. *)
Example findDocumentSymbols_drops_duplicate :
  let twice :=
    {| JavascriptMode.getCompletionsAtPosition := fun _ _ _ => None;
       JavascriptMode.getNavigationBarItems := fun _ _ => Some [function_f; function_f];
       JavascriptMode.getDefinitionAtPosition := fun _ _ _ => None;
       JavascriptMode.getReferencesAtPosition := fun _ _ _ => None |} in
  fst (JavascriptMode.findDocumentSymbols (fun d => d) twice layout_view fresh_mode)
  = fst (JavascriptMode.findDocumentSymbols (fun d => d) navigation_service
           layout_view fresh_mode).
Proof. vm_compute. reflexivity. Qed.

(** C8, on the items of the script [class C { m() {} }].  The class is
    met first below the item of the script and returned there.  When it
    is met again with its method below it, its signature is known: the
    test of line 214 fails, and with it the assignment of line 226 that
    makes the class the label of its children.  The method is returned
    without a container, although the class, its parent, is returned
    too.  No two of the returned symbols share name, kind and start. *)
Theorem findDocumentSymbols_loses_container :
  let symbol_at text kind from to :=
    {| JavascriptMode.name := lit text;
       JavascriptMode.symbol_kind := kind;
       JavascriptMode.location :=
         {| loc_uri := uri layout_view;
            loc_range := {| start_ := {| line := 0; character := from |};
                            end_ := {| line := 0; character := to |} |} |};
       JavascriptMode.containerName := None |} in
  let returned :=
    [ symbol_at "C"%string JavascriptMode.SK_Class 0%Z 18%Z;
      symbol_at "m"%string JavascriptMode.SK_Method 10%Z 16%Z ] in
  fst (JavascriptMode.findDocumentSymbols (fun d => d) class_service
         layout_view fresh_mode)
  = Returned returned
  /\ In method_m (children_of (JavascriptMode.nav_childItems class_C))
  /\ (exists symbol, symbol ∈ returned
                     /\ JavascriptMode.name symbol = JavascriptMode.nav_text class_C)
  /\ ~ child_carries_parent_name class_C method_m returned.
Proof.
  intros symbol_at returned. split; [vm_compute; reflexivity|].
  split; [now left|]. split.
  - eexists. split; [apply list_elem_of_here|reflexivity].
  - intros (symbol & Hin & _ & Hc). subst returned.
    apply list_elem_of_In in Hin.
    destruct Hin as [<-|[<-|[]]]; discriminate Hc.
Qed.

(* ===================================================================== *)
(** * Further properties of the library loader *)
(* ===================================================================== *)

Section LoaderMemo.
Import JavascriptLibs.
Variable join : jsstring -> jsstring -> jsstring.
Variable serverFolder : jsstring.

(** X1.  Whatever a load has returned for a name other than [__proto__], read
    or not, every later load of the name returns the same string and
    leaves the state as it is: no file-system call, no console line,
    whatever the file system has become in between. *)
Theorem loadLibrary_memoized (fs fs' : FileSystem) (name : jsstring) (st : LibState) :
  name <> PROTO ->
  let '(content1, st1) := loadLibrary join serverFolder fs name st in
  loadLibrary join serverFolder fs' name st1 = (content1, st1).
Proof.
  intros Hne. unfold loadLibrary at 1.
  destruct (contents_get (contents st) name) as [content|] eqn:Hget.
  - unfold loadLibrary. rewrite Hget. reflexivity.
  - destruct (JavascriptLibs.resolve join serverFolder fs name) as [libPath probes].
    destruct (readFileSync fs libPath) as [content|];
      apply loadLibrary_hit; cbn [contents]; apply contents_get_set, Hne.
Qed.

(** X2.  A load leaves what is memoized for every other name as it was, and
    only ever appends to the console and to the file-system calls. *)
Theorem loadLibrary_frame (fs : FileSystem) (name other : jsstring) (st : LibState) :
  other <> name ->
  let st' := snd (loadLibrary join serverFolder fs name st) in
  contents_get (contents st') other = contents_get (contents st) other
  /\ (exists lines, console st' = console st ++ lines)
  /\ (exists calls, fsCalls st' = fsCalls st ++ calls).
Proof.
  intros Hne. unfold loadLibrary.
  destruct (contents_get (contents st) name) as [content|] eqn:Hget; cbn [snd].
  - repeat split; [exists []|exists []]; now rewrite app_nil_r.
  - destruct (JavascriptLibs.resolve join serverFolder fs name) as [libPath probes].
    assert (Hother : forall c,
               contents_get (contents_set (contents st) name c) other
               = contents_get (contents st) other).
    { intros c. unfold contents_get, contents_set.
      repeat case_decide; try reflexivity. now apply lookup_insert_ne. }
    destruct (readFileSync fs libPath) as [content|]; cbn [snd contents console fsCalls];
      (split; [apply Hother|]); split; eauto.
    exists []. now rewrite app_nil_r.
Qed.

(** X3.  The console gets a line exactly when the name is not memoized and
    the read of the resolved file fails, and then the empty string is
    returned; a load served from [contents] calls no file-system
    function. *)
Theorem loadLibrary_logs_iff_read_fails (fs : FileSystem) (name : jsstring)
    (st : LibState) :
  let missed := contents_get (contents st) name in
  let libPath := fst (JavascriptLibs.resolve join serverFolder fs name) in
  let '(content, st') := loadLibrary join serverFolder fs name st in
  (console st' <> console st <-> missed = None /\ readFileSync fs libPath = None)
  /\ (console st' <> console st ->
      content = lit "" /\ console st' = console st ++ [unable_message name libPath])
  /\ (missed <> None -> st' = st).
Proof.
  intros missed libPath. subst missed libPath. unfold loadLibrary.
  destruct (contents_get (contents st) name) as [content|] eqn:Hget.
  - repeat split; intros; try congruence; exfalso; intuition congruence.
  - destruct (JavascriptLibs.resolve join serverFolder fs name) as [libPath probes].
    cbn [fst]. destruct (readFileSync fs libPath) as [content|] eqn:Hread;
      cbn [console].
    + repeat split; intros; try congruence; exfalso; intuition congruence.
    + assert (Hgrow : console st ++ [unable_message name libPath] <> console st).
      { intros H. apply (f_equal (@length _)) in H. rewrite length_app in H.
        cbn in H. lia. }
      repeat split; intros; auto; congruence.
Qed.

End LoaderMemo.

Lemma loadLibrary_memoized_witness :
  JavascriptLibs.loadLibrary join_slash (lit "/srv") empty_disk (lit "lib.dom.d.ts")
    (snd (JavascriptLibs.loadLibrary join_slash (lit "/srv") empty_disk
            (lit "lib.dom.d.ts") fresh_libs))
  = JavascriptLibs.loadLibrary join_slash (lit "/srv") empty_disk (lit "lib.dom.d.ts")
      fresh_libs.
Proof.
  pose proof (loadLibrary_memoized join_slash (lit "/srv") empty_disk empty_disk
                (lit "lib.dom.d.ts") fresh_libs) as H.
  destruct (JavascriptLibs.loadLibrary join_slash (lit "/srv") empty_disk
              (lit "lib.dom.d.ts") fresh_libs) as [content1 st1].
  apply H. discriminate.
Defined.

Lemma loadLibrary_frame_witness :
  JavascriptLibs.contents_get
    (JavascriptLibs.contents
       (snd (JavascriptLibs.loadLibrary join_slash (lit "/srv") empty_disk
               (lit "lib.dom.d.ts") fresh_libs))) (lit "jquery")
  = JavascriptLibs.contents_get (JavascriptLibs.contents fresh_libs) (lit "jquery").
Proof.
  refine (proj1 (loadLibrary_frame join_slash (lit "/srv") empty_disk
                   (lit "lib.dom.d.ts") (lit "jquery") fresh_libs _)).
  discriminate.
Defined.

(* ===================================================================== *)
(** * Further properties of the template-include peek *)
(* ===================================================================== *)

Section PeekMore.
Import Peek.

Lemma starts_with_spec pat s :
  starts_with pat s = true <-> exists rest, s = pat ++ rest.
Proof.
  revert s; induction pat as [|p pat IH]; intros s; cbn [starts_with].
  - split; [intros _; now exists s|reflexivity].
  - destruct s as [|c s].
    + split; [discriminate|]. intros [rest H]. discriminate.
    + rewrite andb_true_iff, N.eqb_eq, IH. split.
      * intros [-> [rest ->]]. now exists rest.
      * intros [rest H]. cbn in H. inversion H; subst. split; [reflexivity|].
        now exists rest.
Qed.

Lemma indexOf_from_range pat s i :
  indexOf_from pat s i = (-1)%Z \/ (i <= indexOf_from pat s i)%Z.
Proof.
  revert i; induction s as [|c r IH]; intros i; cbn [indexOf_from];
    destruct (starts_with pat _); try (right; lia); try (now left).
  destruct (IH (i + 1)%Z); [now left|right; lia].
Qed.

Lemma indexOf_zero s pat :
  (indexOf s pat =? 0)%Z = true <-> exists rest, s = pat ++ rest.
Proof.
  rewrite <- starts_with_spec, Z.eqb_eq. unfold indexOf.
  destruct s as [|c r]; cbn [indexOf_from]; destruct (starts_with pat _);
    split; try reflexivity; try discriminate.
  intros H. destruct (indexOf_from_range pat r (0 + 1)%Z); lia.
Qed.

Lemma filter_first {A} (f : A -> bool) (l : list A) :
  match List.filter f l with
  | a :: _ => exists before after,
                l = before ++ a :: after /\ f a = true
                /\ Forall (fun b => f b = false) before
  | [] => Forall (fun b => f b = false) l
  end.
Proof.
  induction l as [|x l IH]; cbn [List.filter]; [constructor|].
  destruct (f x) eqn:Ex.
  - exists [], l. repeat split; [exact Ex|constructor].
  - destruct (List.filter f l) as [|a rest].
    + now constructor.
    + destruct IH as (before & after & -> & Ha & Hb).
      exists (x :: before), after. repeat split; [exact Ha|now constructor].
Qed.

(** X4.  [getWorkspacePath] answers with the uri of the first folder, in the
    order of the list, whose uri is a prefix of the uri of the document;
    it answers [null] when the list is absent or no folder is such. *)
Theorem getWorkspacePath_first_prefix
    (folders : option (list WorkspaceFolder)) (document : TextDocument) :
  let holds a := exists rest, uri document = folder_uri a ++ rest in
  match getWorkspacePath folders document with
  | Some u =>
      exists before a after,
        folders = Some (before ++ a :: after)
        /\ u = folder_uri a /\ holds a
        /\ Forall (fun b => ~ holds b) before
  | None => forall l, folders = Some l -> Forall (fun b => ~ holds b) l
  end.
Proof.
  intros holds. unfold getWorkspacePath.
  destruct folders as [[|x l]|]; try (intros ? [= <-]; constructor); try discriminate.
  pose proof (filter_first
                (fun a => (indexOf (uri document) (folder_uri a) =? 0)%Z) (x :: l)) as H.
  destruct (List.filter _ (x :: l)) as [|a rest].
  - intros l' [= <-]. revert H. apply List.Forall_impl. intros b Hb Hh.
    apply indexOf_zero in Hh. congruence.
  - destruct H as (before & after & E & Ha & Hb).
    exists before, a, after. rewrite E. repeat split.
    + now apply indexOf_zero.
    + revert Hb. apply List.Forall_impl. intros b Hf Hh.
      apply indexOf_zero in Hh. congruence.
Qed.

Lemma collect_cons lineText lastIndex index len :
  exec lineText lastIndex = Some (index, len) ->
  collect lineText lastIndex
  = mkPart lineText index len :: collect lineText (index + len).
Proof.
  funelim (collect lineText lastIndex); intros E; [|congruence].
  assert (E' := Hm). rewrite E in E'. inversion E'; subst. reflexivity.
Qed.

Lemma collect_nil lineText lastIndex :
  exec lineText lastIndex = None -> collect lineText lastIndex = [].
Proof.
  funelim (collect lineText lastIndex); intros E; [|reflexivity].
  assert (E' := Hm). rewrite E in E'. discriminate.
Qed.

End PeekMore.

Section PeekShape.
Import Peek.

Lemma lazy_to_quote_split s n :
  lazy_to_quote s = Some n ->
  exists body q rest,
    s = body ++ q :: rest /\ n = S (length body) /\ is_quote q = true
    /\ Forall (fun c => is_quote c = false /\ is_line_terminator c = false) body.
Proof.
  revert n; induction s as [|c r IH]; intros n; cbn [lazy_to_quote]; [discriminate|].
  destruct (is_quote c) eqn:Eq.
  - intros [= <-]. exists [], c, r. repeat split; [exact Eq|constructor].
  - destruct (is_line_terminator c) eqn:El; [discriminate|].
    destruct (lazy_to_quote r) as [m|]; [|discriminate]. cbn. intros [= <-].
    destruct (IH m eq_refl) as (body & q & rest & -> & -> & Hq & Hb).
    exists (c :: body), q, rest. repeat split; [exact Hq|]. constructor; auto.
Qed.

Lemma starts_with_ci_app pat d tl :
  (length pat <= length d)%nat ->
  starts_with_ci pat (d ++ tl) = starts_with_ci pat d.
Proof.
  revert d; induction pat as [|p pat IH]; intros [|c d] H; cbn in *;
    try reflexivity; try lia.
  rewrite IH by lia. reflexivity.
Qed.

(** What a match at the start of [s] looks like: the at sign, eight code
    units of directive and parenthesis, one character, as few characters
    as possible that are neither quotes nor line terminators, a quote. *)
Lemma match_at_split s n :
  match_at s = Some n ->
  exists d c body q rest,
    s = 64%N :: d ++ c :: body ++ q :: rest
    /\ length d = 8%nat /\ n = (11 + length body)%nat
    /\ (starts_with_ci (lit "include(") d = true
        \/ starts_with_ci (lit "extends(") d = true)
    /\ is_line_terminator c = false /\ is_quote q = true
    /\ Forall (fun c => is_quote c = false /\ is_line_terminator c = false) body.
Proof.
  destruct s as [|a r]; [discriminate|]. unfold match_at.
  destruct (N.eqb_spec a 64) as [->|]; [|discriminate]. cbn [andb].
  destruct (starts_with_ci (lit "include(") r || starts_with_ci (lit "extends(") r)
    eqn:E; [|discriminate].
  assert (Hlen : (8 <= length r)%nat).
  { apply orb_true_iff in E as [E|E]; apply starts_with_ci_length in E; exact E. }
  assert (Hd : length (take 8 r) = 8%nat) by (rewrite length_take; lia).
  assert (Ed : starts_with_ci (lit "include(") (take 8 r) = true
               \/ starts_with_ci (lit "extends(") (take 8 r) = true).
  { rewrite <- (take_drop 8 r) in E at 1 2.
    rewrite !starts_with_ci_app in E by (rewrite Hd; cbn; lia).
    now apply orb_true_iff in E. }
  unfold group1. destruct (drop 8 r) as [|c r'] eqn:Er; [discriminate|].
  destruct (is_line_terminator c) eqn:El; [discriminate|].
  destruct (lazy_to_quote r') as [m|] eqn:Em; [|discriminate]. cbn. intros [= <-].
  destruct (lazy_to_quote_split _ _ Em) as (body & q & rest & -> & -> & Hq & Hb).
  exists (take 8 r), c, body, q, rest. repeat split; auto; try lia.
  f_equal. rewrite <- Er. symmetry. apply take_drop.
Qed.

End PeekShape.

Section PeekParts.
Import Peek.

Lemma chain_lookup lo parts i j p q :
  chain lo parts -> (i < j)%nat ->
  parts !! i = Some p -> parts !! j = Some q -> (end' p <= start q)%Z.
Proof.
  revert lo i j; induction parts as [|x ps IH]; intros lo i j Hc Hij Hp Hq;
    [discriminate|].
  cbn in Hc. destruct Hc as (_ & _ & Hc).
  destruct j as [|j]; [lia|]. cbn in Hq.
  destruct i as [|i].
  - cbn in Hp. inversion Hp; subst.
    apply list_elem_of_lookup_2, list_elem_of_In in Hq.
    apply (chain_In _ _ _ Hc Hq).
  - cbn in Hp. apply (IH _ i j Hc); [lia|assumption|assumption].
Qed.

Lemma includeParts_In lineText part :
  In part (includeParts lineText) ->
  exists index len, part = mkPart lineText index len
                    /\ match_at (drop index lineText) = Some len.
Proof.
  unfold includeParts. destruct (truthy lineText && truthy (trim lineText)).
  - apply collect_matches.
  - intros [].
Qed.

(** X5.  The parts found on a line are listed from left to right and do not
    overlap.  Each lies within the line, is its text between [start] and
    [end], is at least eleven code units long, begins with the at sign
    and ends with a quote; its template holds no quote. *)
Theorem includeParts_shape (lineText : jsstring) :
  let parts := includeParts lineText in
  (forall i j p q, (i < j)%nat -> parts !! i = Some p -> parts !! j = Some q ->
                   (end' p <= start q)%Z)
  /\ Forall (fun p =>
       (0 <= start p)%Z /\ (start p + 11 <= end' p)%Z
       /\ (end' p <= Z.of_nat (length lineText))%Z
       /\ text p = slice lineText (Z.to_nat (start p)) (Z.to_nat (end' p - start p))
       /\ head (text p) = Some 64%N
       /\ (exists q, last (text p) = Some q /\ is_quote q = true)
       /\ Forall (fun c => is_quote c = false) (template p)) parts.
Proof.
  intros parts. split.
  - intros i j p q. apply (chain_lookup 0). apply includeParts_chain.
  - apply List.Forall_forall. intros p Hp.
    apply includeParts_In in Hp as (index & len & -> & Hm).
    pose proof (match_at_bound _ _ Hm) as Hb. rewrite length_drop in Hb.
    destruct (match_at_split _ _ Hm)
      as (d & c & body & q & rest & Hs & Hd & Hn & _ & _ & Hq & _).
    cbn [mkPart start end' text template].
    assert (Htext : slice lineText index len = 64%N :: d ++ c :: body ++ [q]).
    { unfold slice. rewrite Hs.
      change (64%N :: d ++ c :: body ++ q :: rest)
        with ((64%N :: d) ++ c :: body ++ q :: rest).
      replace ((64%N :: d) ++ c :: body ++ q :: rest)
        with ((64%N :: d ++ c :: body ++ [q]) ++ rest)
        by (cbn; rewrite <- !app_assoc; cbn; rewrite <- !app_assoc; reflexivity).
      apply take_app_length'. cbn. rewrite !length_app. cbn. rewrite length_app.
      cbn. lia. }
    repeat split; try lia.
    + f_equal; lia.
    + rewrite Htext. reflexivity.
    + exists q. split; [|exact Hq]. rewrite Htext.
      change (64%N :: d ++ c :: body ++ [q]) with ((64%N :: d) ++ (c :: body) ++ [q]).
      rewrite !app_assoc. apply last_snoc.
    + apply List.Forall_forall. intros x Hx. unfold remove_all in Hx.
      apply filter_In in Hx as [_ Hx]. now apply negb_true_iff in Hx.
Qed.

Lemma match_at_has_quote s n :
  match_at s = Some n -> exists q, In q s /\ is_quote q = true.
Proof.
  intros Hm. destruct (match_at_split _ _ Hm)
    as (d & c & body & q & rest & -> & _ & _ & _ & _ & Hq & _).
  exists q. split; [|exact Hq]. right. apply in_or_app. right. right.
  apply in_or_app. right. now left.
Qed.

Lemma search_some_suffix s i j n :
  search s i = Some (j, n) -> exists k, match_at (drop k s) = Some n.
Proof. intros H. apply search_found in H as [_ H]. eauto. Qed.

Lemma In_drop {A} (x : A) k l : In x (drop k l) -> In x l.
Proof.
  revert l; induction k as [|k IH]; intros [|y l]; cbn; auto.
Qed.

(** X6.  Without a quote on the line nothing is found, so no definition is
    returned wherever the cursor is. *)
Theorem peekFileDefinition_needs_quote
    (document : TextDocument) (position : Position) (options : PeekOptions) :
  Forall (fun c => is_quote c = false) (cursorLine document position) ->
  includeParts (cursorLine document position) = []
  /\ peekFileDefinition document position options = Some [].
Proof.
  intros Hnone.
  assert (E : includeParts (cursorLine document position) = []).
  { unfold includeParts.
    destruct (truthy _ && truthy _); [|reflexivity].
    apply collect_nil. unfold exec.
    destruct (search _ 0) as [[j n]|] eqn:Es; [|reflexivity].
    exfalso. apply search_some_suffix in Es as [k Hm].
    apply match_at_has_quote in Hm as (q & Hin & Hq).
    rewrite List.Forall_forall in Hnone.
    rewrite (Hnone q) in Hq; [discriminate|].
    apply (In_drop q k). exact Hin. }
  split; [exact E|].
  unfold peekFileDefinition. fold (cursorLine document position). rewrite E.
  reflexivity.
Qed.

Lemma trimStart_spec s :
  exists w, s = w ++ trimStart s /\ Forall (fun c => is_white_space c = true) w.
Proof.
  induction s as [|c r (w & Hr & Hw)]; [exists []; split; [reflexivity|constructor]|].
  cbn [trimStart]. destruct (is_white_space c) eqn:Ec.
  - exists (c :: w). split; [cbn; now rewrite <- Hr|now constructor].
  - exists []. split; [reflexivity|constructor].
Qed.

Lemma trim_nil_blank s :
  trim s = [] -> Forall (fun c => is_white_space c = true) s.
Proof.
  unfold trim. intros H. apply trimEnd_nil_iff in H.
  destruct (trimStart_spec s) as (w & Hs & Hw). rewrite Hs.
  apply Forall_app. split; assumption.
Qed.

(** The test of line 40 changes nothing: on an empty or blank line the
    loop finds no part anyway. *)
Lemma includeParts_is_the_loop (lineText : jsstring) :
  includeParts lineText = collect lineText 0.
Proof.
  unfold includeParts.
  destruct (truthy lineText && truthy (trim lineText)) eqn:G; [reflexivity|].
  symmetry. apply collect_nil. unfold exec.
  destruct (search _ 0) as [[j n]|] eqn:Es; [|reflexivity].
  exfalso. apply search_some_suffix in Es as [k Hm].
  destruct (match_at_split _ _ Hm) as (d & c & body & q & rest & Hs & _).
  assert (Hat : In 64%N lineText).
  { apply (In_drop _ k). change (drop k lineText) with (drop k (drop 0 lineText)).
    rewrite Hs. now left. }
  apply andb_false_iff in G as [G|G].
  - destruct lineText; [destruct Hat|discriminate].
  - assert (Hb : trim lineText = []) by (destruct (trim lineText); [reflexivity|discriminate]).
    apply trim_nil_blank in Hb. rewrite List.Forall_forall in Hb.
    specialize (Hb _ Hat). discriminate.
Qed.

End PeekParts.

Lemma peekFileDefinition_needs_quote_witness :
  Peek.peekFileDefinition
    (one_line_document (lit "file:///w/a.blade.php") 1 (lit "@include(layouts.app)"))
    {| line := 0; character := 4 |} layout_options = Some [].
Proof.
  refine (proj2 (peekFileDefinition_needs_quote _ _ _ _)).
  vm_compute. repeat constructor.
Defined.

Section PeekRecognition.
Import Peek.

Lemma starts_with_ci_lower pat d tl :
  List.map to_lower pat = List.map to_lower d ->
  starts_with_ci pat (d ++ tl) = true.
Proof.
  revert d; induction pat as [|p pat IH]; intros [|c d] H; cbn in *;
    try reflexivity; try discriminate.
  inversion H as [[Hc Hd]]. rewrite Hc, N.eqb_refl. cbn. now apply IH.
Qed.

Lemma search_skips pre s i :
  ~ In 64%N pre -> search (pre ++ s) i = search s (i + length pre).
Proof.
  revert i; induction pre as [|c pre IH]; intros i Hpre; cbn [app length].
  - now rewrite Nat.add_0_r.
  - cbn [search]. unfold match_at at 1.
    destruct (N.eqb_spec c 64) as [->|_]; [exfalso; apply Hpre; now left|].
    cbn [andb]. rewrite IH by (intros H; apply Hpre; now right).
    f_equal. lia.
Qed.

Lemma search_passes pre s i :
  (forall k, (k < length pre)%nat -> match_at (drop k (pre ++ s)) = None) ->
  search (pre ++ s) i = search s (i + length pre).
Proof.
  revert i; induction pre as [|c pre IH]; intros i Hpre; cbn [app length].
  - now rewrite Nat.add_0_r.
  - cbn [search].
    pose proof (Hpre 0%nat ltac:(cbn; lia)) as H0. rewrite drop_0 in H0.
    cbn [app] in H0. rewrite H0.
    rewrite IH; [f_equal; lia|].
    intros k Hk. apply (Hpre (S k)). cbn [length]. lia.
Qed.

Lemma no_at_no_match pre s k :
  ~ In 64%N pre -> (k < length pre)%nat -> match_at (drop k (pre ++ s)) = None.
Proof.
  intros Hpre Hk. rewrite drop_app_le by lia.
  destruct (drop k pre) as [|c r] eqn:E.
  - apply (f_equal (@length _)) in E. rewrite length_drop in E. cbn in E. lia.
  - assert (Hc : In c pre) by (apply (In_drop c k); rewrite E; now left).
    cbn [app]. unfold match_at.
    destruct (N.eqb_spec c 64) as [->|_]; [contradiction|]. reflexivity.
Qed.

Lemma lazy_to_quote_plain name q' post :
  is_quote q' = true ->
  Forall (fun c => is_quote c = false /\ is_line_terminator c = false) name ->
  lazy_to_quote (name ++ q' :: post) = Some (S (length name)).
Proof.
  intros Hq. induction 1 as [|c name [Hc Hl] _ IH]; cbn [app lazy_to_quote length].
  - now rewrite Hq.
  - rewrite Hc, Hl, IH. reflexivity.
Qed.

Lemma quote_not_terminator q : is_quote q = true -> is_line_terminator q = false.
Proof.
  unfold is_quote. intros H. apply orb_true_iff in H as [H|H];
    apply N.eqb_eq in H; subst; reflexivity.
Qed.

Lemma remove_all_keeps drop s :
  Forall (fun c => drop c = false) s -> remove_all drop s = s.
Proof.
  induction 1 as [|c s Hc _ IH]; [reflexivity|].
  unfold remove_all in *. cbn. rewrite Hc. cbn. now rewrite IH.
Qed.

(** A directive written as the at sign, [include(] or [extends(] in any
    letter case, a quote, a name without quotes and line terminators and
    a quote is the first part found when no match of the pattern starts
    before it: it spans from the at sign to the closing quote, and its
    template is the name. *)
Lemma includeParts_directive_first
    (pre directive name post : jsstring) (q q' : N) :
  let lineText := pre ++ 64%N :: directive ++ q :: name ++ q' :: post in
  (forall k, (k < length pre)%nat -> match_at (drop k lineText) = None) ->
  List.map to_lower directive = lit "include("
  \/ List.map to_lower directive = lit "extends(" ->
  is_quote q = true -> is_quote q' = true ->
  Forall (fun c => is_quote c = false /\ is_line_terminator c = false) name ->
  includeParts lineText
  = {| start := Z.of_nat (length pre);
       end' := Z.of_nat (length pre) + Z.of_nat (11 + length name);
       text := 64%N :: directive ++ q :: name ++ [q'];
       template := name |}
    :: collect lineText (length pre + (11 + length name)).
Proof.
  intros lineText Hpre Hdir Hq Hq' Hname. subst lineText.
  set (found := 64%N :: directive ++ q :: name ++ q' :: post) in *.
  assert (Hlen : length directive = 8%nat).
  { destruct Hdir as [H|H]; apply (f_equal (@length _)) in H;
      rewrite length_map in H; exact H. }
  assert (Hm : match_at found = Some (11 + length name)%nat).
  { subst found. unfold match_at. rewrite N.eqb_refl. cbn [andb].
    replace (starts_with_ci (lit "include(") (directive ++ q :: name ++ q' :: post)
             || starts_with_ci (lit "extends(") (directive ++ q :: name ++ q' :: post))
      with true.
    2:{ symmetry. apply orb_true_iff.
        destruct Hdir as [H|H]; [left|right];
          apply starts_with_ci_lower; rewrite H; reflexivity. }
    rewrite drop_app_length' by (symmetry; exact Hlen).
    unfold group1. rewrite (quote_not_terminator q Hq).
    rewrite (lazy_to_quote_plain name q' post Hq' Hname). reflexivity. }
  rewrite includeParts_is_the_loop.
  rewrite (collect_cons _ 0 (length pre) (11 + length name)).
  2:{ unfold exec. rewrite drop_0, search_passes by exact Hpre.
      destruct found as [|a r] eqn:Ef; [discriminate|].
      cbn [search]. rewrite Hm. reflexivity. }
  f_equal. unfold mkPart. f_equal.
  - unfold slice. rewrite drop_app_length. subst found.
    replace (64%N :: directive ++ q :: name ++ q' :: post)
      with ((64%N :: directive ++ q :: name ++ [q']) ++ post)
      by (cbn; rewrite <- !app_assoc; cbn; rewrite <- !app_assoc; reflexivity).
    apply take_app_length'. cbn. rewrite !length_app. cbn. rewrite length_app.
    cbn. lia.
  - unfold slice. rewrite <- drop_drop, drop_app_length. subst found.
    change (64%N :: directive ++ q :: name ++ q' :: post)
      with ((64%N :: directive) ++ q :: name ++ q' :: post).
    rewrite drop_app_length' by (cbn; lia).
    replace (q :: name ++ q' :: post) with ((q :: name ++ [q']) ++ post)
      by (cbn; rewrite <- !app_assoc; reflexivity).
    rewrite take_app_length' by (cbn; rewrite length_app; cbn; lia).
    unfold remove_all. cbn [List.filter]. rewrite Hq. cbn [negb].
    rewrite List.filter_app. cbn [List.filter]. rewrite Hq'. cbn [negb].
    rewrite app_nil_r. apply remove_all_keeps.
    revert Hname. apply List.Forall_impl. tauto.
Qed.

(** X7.  A directive written as the at sign, [include(] or [extends(] in any
    letter case, a quote, a name without quotes and line terminators and
    a quote, with no at sign before it on the line, is the first part
    found: it spans from the at sign to the closing quote, and its
    template is the name. *)
Theorem includeParts_finds_directive
    (pre directive name post : jsstring) (q q' : N) :
  ~ In 64%N pre ->
  List.map to_lower directive = lit "include("
  \/ List.map to_lower directive = lit "extends(" ->
  is_quote q = true -> is_quote q' = true ->
  Forall (fun c => is_quote c = false /\ is_line_terminator c = false) name ->
  head (includeParts (pre ++ 64%N :: directive ++ q :: name ++ q' :: post))
  = Some {| start := Z.of_nat (length pre);
            end' := Z.of_nat (length pre) + Z.of_nat (11 + length name);
            text := 64%N :: directive ++ q :: name ++ [q'];
            template := name |}.
Proof.
  intros Hpre Hdir Hq Hq' Hname.
  rewrite includeParts_directive_first by (auto using no_at_no_match).
  reflexivity.
Qed.

End PeekRecognition.

Lemma includeParts_finds_directive_witness :
  head (Peek.includeParts (lit "  @Include('layouts.app') more"))
  = Some {| Peek.start := 2; Peek.end' := 24;
            Peek.text := lit "@Include('layouts.app'";
            Peek.template := lit "layouts.app" |}.
Proof.
  refine (includeParts_finds_directive (lit "  ") (lit "Include(") (lit "layouts.app")
            (lit ") more") 39 39 _ _ _ _ _).
  - intros [H|[H|[]]]; discriminate.
  - left. reflexivity.
  - reflexivity.
  - reflexivity.
  - vm_compute. repeat constructor.
Defined.

Section PeekDirective.
Import Peek.






End PeekDirective.




(* ===================================================================== *)
(** * Further properties of the formatter wrapper *)
(* ===================================================================== *)

Section PrettierMore.
Import Prettier.

Lemma trimEnd_last s c : last (trimEnd s) = Some c -> is_white_space c = false.
Proof.
  induction s as [|x r IH]; cbn [trimEnd]; [discriminate|].
  destruct (trimEnd r) as [|y r'] eqn:Et.
  - destruct (is_white_space x) eqn:Ex; [discriminate|]. now intros [= <-].
  - rewrite last_cons_cons. exact IH.
Qed.

Lemma blanks_to_end_white s :
  blanks_to_end s = true -> Forall (fun c => is_white_space c = true) s.
Proof.
  induction s as [|c r IH]; cbn [blanks_to_end]; [constructor|].
  intros H. apply andb_true_iff in H as [Hc Hr]. constructor; [|now apply IH].
  apply orb_true_iff in Hc as [Hc|Hc]; apply N.eqb_eq in Hc; subst; reflexivity.
Qed.

Lemma cr_blanks_to_end_white s :
  cr_blanks_to_end s = true -> Forall (fun c => is_white_space c = true) s.
Proof.
  destruct s as [|c r]; cbn [cr_blanks_to_end]; [constructor|].
  destruct (N.eqb_spec c CR) as [->|_].
  - intros H. constructor; [reflexivity|now apply blanks_to_end_white].
  - apply blanks_to_end_white.
Qed.

Lemma cr_blanks_to_end_last s c :
  last s = Some c -> is_white_space c = false -> cr_blanks_to_end s = false.
Proof.
  intros Hl Hc. destruct (cr_blanks_to_end s) eqn:E; [|reflexivity].
  apply cr_blanks_to_end_white in E. rewrite List.Forall_forall in E.
  rewrite (E c) in Hc; [discriminate|].
  apply list_elem_of_In. apply last_Some in Hl as [l ->].
  apply elem_of_app. right. now apply list_elem_of_singleton.
Qed.

Lemma exec_tagIndent_none s c :
  last s = Some c -> is_white_space c = false -> exec_tagIndent s = None.
Proof.
  induction s as [|x r IH]; intros Hl Hc; [discriminate|].
  cbn [exec_tagIndent]. destruct r as [|y r'].
  - cbn in Hl. inversion Hl; subst.
    destruct (N.eqb_spec c LF) as [->|_]; [discriminate|reflexivity].
  - rewrite last_cons_cons in Hl.
    rewrite (cr_blanks_to_end_last _ _ Hl Hc), andb_false_r. now apply IH.
Qed.

Lemma blanks_to_end_line_feed pre rest :
  blanks_to_end (pre ++ LF :: rest) = false.
Proof.
  induction pre as [|c pre IH]; cbn [app blanks_to_end]; [reflexivity|].
  rewrite IH. apply andb_false_r.
Qed.

Lemma cr_blanks_to_end_line_feed pre rest :
  cr_blanks_to_end (pre ++ LF :: rest) = false.
Proof.
  destruct pre as [|c pre]; [reflexivity|]. cbn [app cr_blanks_to_end].
  destruct (c =? CR)%N; [apply blanks_to_end_line_feed|].
  apply (blanks_to_end_line_feed (c :: pre)).
Qed.

Lemma exec_tagIndent_found pre blanks :
  cr_blanks_to_end blanks = true ->
  exec_tagIndent (pre ++ LF :: blanks) = Some [LF :: blanks; LF :: blanks].
Proof.
  intros Hb. induction pre as [|x pre IH]; cbn [app exec_tagIndent].
  - now rewrite N.eqb_refl, Hb.
  - now rewrite cr_blanks_to_end_line_feed, andb_false_r.
Qed.

(** X8.  Formatting keeps the indentation context: the text returned ends as
    the selected text does, in the sense of [tagIndent], unless the
    selected text has no such end and nothing is left of the formatter
    output after the trimming; the text returned is then a single line
    feed, which is a context of its own. *)
Theorem format_keeps_context
    (prettier_format : jsstring -> jsstring -> Z -> bool -> jsstring)
    (text parser : jsstring) (formattingOption : FormattingOptions) :
  let out := prettier_format text parser (tabSize formattingOption)
               (negb (insertSpaces formattingOption)) in
  let body := join [LF] (List.map (app (intdent text formattingOption))
                           (split LF out)) in
  let returned := format prettier_format text parser formattingOption in
  (tagIndent text <> [] \/ trimEnd body <> [] ->
   tagIndent returned = tagIndent text)
  /\ (tagIndent text = [] -> trimEnd body = [] ->
      returned = [LF] /\ tagIndent returned = [LF]).
Proof.
  intros out body returned.
  assert (Hr : returned = [LF] ++ trimEnd body ++ tagIndent text) by reflexivity.
  destruct (tagIndent_spec text) as [_ [Htag|(blanks & Htag & Hb)]].
  - rewrite Htag in *. rewrite app_nil_r in Hr. split.
    + intros [H|H]; [congruence|]. rewrite Hr. unfold tagIndent.
      destruct (last (trimEnd body)) as [c|] eqn:El.
      * rewrite (exec_tagIndent_none ([LF] ++ trimEnd body) c); [reflexivity| |].
        -- destruct (trimEnd body) as [|x r]; [congruence|].
           cbn [app]. now rewrite last_cons_cons.
        -- now apply trimEnd_last in El.
      * apply last_None in El. congruence.
    + intros _ Hnil. rewrite Hr, Hnil. split; reflexivity.
  - split; [|congruence]. intros _. rewrite Hr, Htag.
    unfold tagIndent at 1.
    rewrite (app_assoc [LF] (trimEnd body) (LF :: blanks)).
    rewrite exec_tagIndent_found by exact Hb. reflexivity.
Qed.

Lemma in_split_in sep s l c : In l (split sep s) -> In c l -> In c s.
Proof.
  revert l; induction s as [|x r IH]; intros l; cbn [split].
  - intros [<-|[]] [].
  - destruct (x =? sep)%N.
    + intros [<-|Hl] Hc; [destruct Hc|]. right. eauto.
    + destruct (split sep r) as [|l0 ls] eqn:Es.
      * intros [<-|[]] [->|[]]. now left.
      * intros [<-|Hl] Hc.
        -- destruct Hc as [->|Hc]; [now left|]. right. apply (IH l0); [now left|exact Hc].
        -- right. apply (IH l); [now right|exact Hc].
Qed.

Lemma join_white sep ls :
  Forall (fun c => is_white_space c = true) sep ->
  Forall (Forall (fun c => is_white_space c = true)) ls ->
  Forall (fun c => is_white_space c = true) (join sep ls).
Proof.
  intros Hsep. induction 1 as [|l ls Hl Hls IH]; [constructor|].
  destruct ls as [|l' ls]; [exact Hl|].
  change (join sep (l :: l' :: ls)) with (l ++ sep ++ join sep (l' :: ls)).
  apply Forall_app. split; [exact Hl|]. apply Forall_app. split; assumption.
Qed.

(** The prefix put in front of every line is white space. *)
Lemma intdent_white text fo :
  Forall (fun c => is_white_space c = true) (intdent text fo).
Proof.
  unfold intdent. apply Forall_app. split.
  - unfold prefixIndent, remove_all.
    destruct (tagIndent_spec text) as [_ [->|(blanks & -> & Hb)]]; [constructor|].
    apply List.Forall_forall. intros c Hc. apply filter_In in Hc as [Hc _].
    destruct Hc as [<-|Hc]; [reflexivity|].
    apply cr_blanks_to_end_white in Hb. rewrite List.Forall_forall in Hb. auto.
  - unfold indentUnit. destruct (insertSpaces fo); [|repeat constructor].
    unfold repeat. induction (Z.to_nat (tabSize fo)) as [|n IH]; [constructor|].
    cbn. constructor; [reflexivity|exact IH].
Qed.

(** X9.  When the formatter answers nothing but white space (the empty string
    included), the text returned is a line feed followed by the
    indentation context: no line of indentation is left over. *)
Theorem format_blank_output
    (prettier_format : jsstring -> jsstring -> Z -> bool -> jsstring)
    (text parser : jsstring) (formattingOption : FormattingOptions) :
  Forall (fun c => is_white_space c = true)
    (prettier_format text parser (tabSize formattingOption)
       (negb (insertSpaces formattingOption))) ->
  format prettier_format text parser formattingOption = [LF] ++ tagIndent text.
Proof.
  intros Hout. unfold format.
  replace (trimEnd _) with (@nil N); [reflexivity|].
  symmetry. apply trimEnd_nil_iff. apply join_white; [repeat constructor|].
  apply List.Forall_forall. intros l Hl. apply in_map_iff in Hl as (l0 & <- & Hl0).
  apply Forall_app. split; [apply intdent_white|].
  apply List.Forall_forall. intros c Hc.
  rewrite List.Forall_forall in Hout. apply Hout. eapply in_split_in; eauto.
Qed.

End PrettierMore.

Lemma format_keeps_context_witness :
  Prettier.tagIndent
    (Prettier.format prettier_a (lit "    a" ++ [LF] ++ lit "    ") (lit "babel")
       four_spaces)
  = Prettier.tagIndent (lit "    a" ++ [LF] ++ lit "    ").
Proof.
  refine (proj1 (format_keeps_context prettier_a (lit "    a" ++ [LF] ++ lit "    ")
                   (lit "babel") four_spaces) _).
  left. vm_compute. discriminate.
Defined.

Lemma format_blank_output_witness :
  Prettier.format prettier_nothing (lit "  " ++ [LF] ++ lit "  ") (lit "less") four_spaces
  = [LF] ++ Prettier.tagIndent (lit "  " ++ [LF] ++ lit "  ").
Proof.
  apply format_blank_output. constructor.
Defined.

Section Reindent.
Import Prettier.

Lemma blanks_to_end_iff s :
  blanks_to_end s = true <-> Forall (fun c => c = SPACE \/ c = TAB) s.
Proof.
  induction s as [|c r IH]; cbn [blanks_to_end].
  - split; [constructor|reflexivity].
  - rewrite andb_true_iff, orb_true_iff, !N.eqb_eq, IH. split.
    + intros [Hc Hr]. now constructor.
    + intros H. inversion H; subst. auto.
Qed.

Lemma cr_blanks_to_end_iff rest :
  cr_blanks_to_end rest = true <-> indentation rest.
Proof.
  unfold indentation. destruct rest as [|c r]; cbn [cr_blanks_to_end].
  - split; [|reflexivity]. intros _. exists []. split; [constructor|now left].
  - destruct (N.eqb_spec c CR) as [->|Hc]; rewrite blanks_to_end_iff; split.
    + intros H. exists r. split; [exact H|now right].
    + intros (blanks & Hb & [E|E]).
      * subst blanks. inversion Hb as [|? ? [H|H] _]; discriminate H.
      * now inversion E; subst.
    + intros H. exists (c :: r). split; [exact H|now left].
    + intros (blanks & Hb & [E|E]); [now subst|]. inversion E; subst. congruence.
Qed.

Lemma tagIndent_found pre rest :
  indentation rest -> tagIndent (pre ++ LF :: rest) = LF :: rest.
Proof.
  intros H. apply cr_blanks_to_end_iff in H. unfold tagIndent.
  rewrite exec_tagIndent_found by exact H. reflexivity.
Qed.

Lemma indentation_no_LF rest :
  indentation rest -> Forall (fun c => (c =? LF)%N = false) rest.
Proof.
  intros (blanks & Hb & E).
  assert (Forall (fun c => (c =? LF)%N = false) blanks).
  { revert Hb. apply List.Forall_impl. intros c [->| ->]; reflexivity. }
  destruct E as [->| ->]; [assumption|]. now constructor.
Qed.

Lemma prefixIndent_tail text : prefixIndent text = List.tl (tagIndent text).
Proof.
  unfold prefixIndent.
  destruct (tagIndent_spec text) as [_ [->|(rest & -> & Hr)]]; [reflexivity|].
  unfold remove_all. cbn [List.filter]. rewrite N.eqb_refl. cbn [negb List.tl].
  apply remove_all_keeps. apply indentation_no_LF. now apply cr_blanks_to_end_iff.
Qed.

Lemma indentUnit_step fo :
  indentUnit fo
  = if insertSpaces fo then List.repeat SPACE (Z.to_nat (tabSize fo)) else [TAB].
Proof.
  unfold indentUnit, repeat. destruct (insertSpaces fo); [|reflexivity].
  induction (Z.to_nat (tabSize fo)) as [|n IH]; [reflexivity|].
  cbn [List.repeat List.concat]. rewrite IH. reflexivity.
Qed.

Lemma join_split sep s : join [sep] (split sep s) = s.
Proof.
  rewrite join_split_replace. induction s as [|c r IH]; [reflexivity|].
  cbn [List.map]. rewrite IH.
  destruct (N.eqb_spec c sep) as [->|_]; reflexivity.
Qed.

End Reindent.

(** C1, amended.  The indentation context [tagIndent] is read from the
    end of the selected text: when the text ends with a line feed, an
    optional carriage return and spaces and tabs only, it is that end,
    from the line feed on; otherwise it is empty.  The formatter output
    is cut into lines at its line feeds, and every line is prefixed with
    the context without its line feed followed by one indentation step,
    [tabSize] spaces when [insertSpaces] is set and a tab otherwise.  The
    lines are joined again with line feeds, the white space at the end
    is trimmed, and the result is put between a line feed and the
    context. *)
Theorem format_reindents
    (prettier_format : jsstring -> jsstring -> Z -> bool -> jsstring)
    (text parser : jsstring) (formattingOption : FormattingOptions) :
  let out := prettier_format text parser (tabSize formattingOption)
               (negb (insertSpaces formattingOption)) in
  let tag := Prettier.tagIndent text in
  let step := if insertSpaces formattingOption
              then List.repeat SPACE (Z.to_nat (tabSize formattingOption))
              else [TAB] in
  let indent := List.tl tag ++ step in
  let body := join [LF] (List.map (app indent) (split LF out)) in
  (forall pre rest, text = pre ++ LF :: rest -> indentation rest -> tag = LF :: rest)
  /\ (tag = []
      \/ exists pre rest, text = pre ++ LF :: rest /\ indentation rest
                          /\ tag = LF :: rest)
  /\ join [LF] (split LF out) = out
  /\ Forall (fun l => ~ In LF l) (split LF out)
  /\ split LF body = List.map (app indent) (split LF out)
  /\ exists kept trimmed,
       body = kept ++ trimmed
       /\ Forall (fun c => is_white_space c = true) trimmed
       /\ (forall c, last kept = Some c -> is_white_space c = false)
       /\ Prettier.format prettier_format text parser formattingOption
          = [LF] ++ kept ++ tag.
Proof.
  intros out tag step indent body.
  assert (Hindent : Prettier.intdent text formattingOption = indent).
  { unfold Prettier.intdent. now rewrite prefixIndent_tail, indentUnit_step. }
  split; [|split; [|split; [|split; [|split]]]].
  - intros pre rest -> Hrest. now apply tagIndent_found.
  - destruct (tagIndent_spec text) as [[pre Hpre] [H|(rest & Htag & Hrest)]];
      [now left|right].
    exists pre, rest. fold tag in Hpre, Htag. rewrite Htag in Hpre.
    repeat split; [exact Hpre|now apply cr_blanks_to_end_iff|exact Htag].
  - apply join_split.
  - apply split_no_sep.
  - subst body. apply split_join.
    + pose proof (split_not_nil LF out). destruct (split LF out); [contradiction|].
      discriminate.
    + apply List.Forall_forall. intros l Hl. apply in_map_iff in Hl as (l0 & <- & Hl0).
      intros Hin. apply in_app_or in Hin as [Hin|Hin].
      * rewrite <- Hindent in Hin. revert Hin. apply intdent_no_LF.
      * pose proof (split_no_sep LF out) as Hns.
        rewrite List.Forall_forall in Hns. exact (Hns _ Hl0 Hin).
  - destruct (trimEnd_spec body) as (trimmed & Hbody & Hw).
    exists (trimEnd body), trimmed. repeat split.
    + exact Hbody.
    + exact Hw.
    + intros c. apply trimEnd_last.
    + unfold Prettier.format. rewrite Hindent. reflexivity.
Qed.

Lemma format_reindents_witness :
  Prettier.tagIndent (lit "    a" ++ [LF] ++ lit "    ") = LF :: lit "    ".
Proof.
  refine (proj1 (format_reindents prettier_a (lit "    a" ++ [LF] ++ lit "    ")
                   (lit "babel") four_spaces) (lit "    a") (lit "    ") _ _).
  - reflexivity.
  - exists (lit "    "). split; [|now left].
    vm_compute. repeat (constructor; [left; reflexivity|]). constructor.
Defined.

(* ===================================================================== *)
(** * The format operation of the modes *)
(* ===================================================================== *)

(** C5 as stated fails.  The text of the range is the statement
    [var = ;], which is not blank and which the formatter cannot parse:
    the format operation of either mode raises the formatter's error and
    returns no edit. *)
Lemma format_raises_on_syntax_error :
  let document := view_of_line (lit "var = ;") in
  trim (getText document (Some first_line)) <> []
  /\ JavascriptMode.format jsstring prettier_strict document first_line four_spaces
     = Prettier.Raised (lit "SyntaxError")
  /\ ~ returns_single_edit first_line
         (JavascriptMode.format jsstring prettier_strict document first_line
            four_spaces)
  /\ LessMode.format jsstring prettier_strict document first_line four_spaces
     = Prettier.Raised (lit "SyntaxError")
  /\ ~ returns_single_edit first_line
         (LessMode.format jsstring prettier_strict document first_line four_spaces).
Proof.
  intros document.
  assert (Ej : JavascriptMode.format jsstring prettier_strict document first_line
                 four_spaces = Prettier.Raised (lit "SyntaxError"))
    by (vm_compute; reflexivity).
  assert (El : LessMode.format jsstring prettier_strict document first_line
                 four_spaces = Prettier.Raised (lit "SyntaxError"))
    by (vm_compute; reflexivity).
  split; [vm_compute; discriminate|].
  split; [exact Ej|]. split; [|split; [exact El|]].
  - rewrite Ej. intros (edit & H & _). discriminate H.
  - rewrite El. intros (edit & H & _). discriminate H.
Qed.

(** C5, amended.  The format operation of the JavaScript mode and of the
    LESS mode returns [null], raising nothing, exactly when the text of the range
    is blank after trimming.  On any other text the formatter is called
    with the parser of the mode: when the formatter returns, the operation
    returns one edit, whose range is the requested range and whose text
    is built by the formatter wrapper from what the formatter returned;
    when the formatter throws, the operation raises the same error. *)
Theorem format_null_edit_or_raise
    (Error : Type)
    (prettier_format : jsstring -> jsstring -> Z -> bool
                       -> Prettier.attempt Error jsstring)
    (document : TextDocument) (range : Range)
    (formattingOption : FormattingOptions) :
  let text := getText document (Some range) in
  let formatter parser :=
    prettier_format text parser (tabSize formattingOption)
      (negb (insertSpaces formattingOption)) in
  let settled parser answer :=
    match answer with
    | Prettier.Done None => trim text = []
    | Prettier.Done (Some edits) =>
        trim text <> []
        /\ exists out,
             formatter parser = Prettier.Done out
             /\ edits = [ {| edit_range := range;
                             newText := Prettier.format (fun _ _ _ _ => out) text
                                          parser formattingOption |} ]
    | Prettier.Raised error =>
        trim text <> [] /\ formatter parser = Prettier.Raised error
    end in
  settled (lit "babel")
    (JavascriptMode.format Error prettier_format document range formattingOption)
  /\ settled (lit "less")
       (LessMode.format Error prettier_format document range formattingOption).
Proof.
  intros text formatter settled.
  unfold JavascriptMode.format, LessMode.format, formatRange, Prettier.formatOrRaise.
  fold text. subst settled formatter. cbv beta.
  destruct (trim text) as [|c r]; cbn [truthy]; [split; reflexivity|].
  split.
  - destruct (prettier_format text (lit "babel") _ _) as [out|error];
      (split; [discriminate|]); [exists out; split; reflexivity|reflexivity].
  - destruct (prettier_format text (lit "less") _ _) as [out|error];
      (split; [discriminate|]); [exists out; split; reflexivity|reflexivity].
Qed.

(* ===================================================================== *)
(** * Further properties of the JavaScript mode *)
(* ===================================================================== *)

Section DecimalFacts.

Lemma lit_inj s s' : lit s = lit s' -> s = s'.
Proof.
  unfold lit. intros H.
  rewrite <- (string_of_list_ascii_of_string s), <- (string_of_list_ascii_of_string s').
  f_equal. revert H. generalize (list_ascii_of_string s) (list_ascii_of_string s').
  induction l as [|a l IH]; intros [|b l'] H; cbn in H; try discriminate; [reflexivity|].
  inversion H as [[Hab Hl]]. f_equal; [|now apply IH].
  rewrite <- (ascii_N_embedding a), <- (ascii_N_embedding b). now rewrite Hab.
Qed.

Lemma to_int_not_nil z :
  Z.to_int z <> Decimal.Pos Decimal.Nil /\ Z.to_int z <> Decimal.Neg Decimal.Nil.
Proof.
  destruct z as [|p|p]; cbn; split; try discriminate;
    intros [= H]; revert H; apply DecimalPos.Unsigned.to_uint_nonnil.
Qed.

(** [String] tells integers apart. *)
Lemma of_Z_inj n m : of_Z n = of_Z m -> n = m.
Proof.
  unfold of_Z. intros H. apply lit_inj in H.
  apply DecimalZ.to_int_inj.
  destruct (to_int_not_nil n) as [Hn1 Hn2], (to_int_not_nil m) as [Hm1 Hm2].
  pose proof (NilZero.isi _ Hn1 Hn2) as En. pose proof (NilZero.isi _ Hm1 Hm2) as Em.
  rewrite H in En. rewrite En in Em. now inversion Em.
Qed.

End DecimalFacts.

Section ModeMore.
Import JavascriptMode.
Variable jsDocuments_get : TextDocument -> TextDocument.
Variable jsLanguageService : LanguageService.
Variable getWordAtText : jsstring -> Z -> TextSpan.

Abbreviation update' := (updateCurrentTextDocument jsDocuments_get).
Abbreviation serve' := (serve jsDocuments_get jsLanguageService getWordAtText).

(** Whether [updateCurrentTextDocument] finds a change: nothing tracked
    yet, or another uri or version than the tracked document has. *)
Lemma update_unfold doc st :
  (match currentTextDocument st with
   | None => True
   | Some current => uri doc <> uri current \/ version doc <> version current
   end
   /\ update' doc st
      = {| currentTextDocument := Some (jsDocuments_get doc);
           scriptFileVersion := scriptFileVersion st + 1;
           jsDocumentsGets := jsDocumentsGets st ++ [doc] |})
  \/ ((exists current, currentTextDocument st = Some current
                       /\ uri doc = uri current /\ version doc = version current)
      /\ update' doc st = st).
Proof.
  unfold updateCurrentTextDocument.
  destruct (currentTextDocument st) as [current|] eqn:Ec; [|left; auto].
  destruct (decide (uri doc = uri current)) as [Hu|Hu].
  - destruct (Z.eqb_spec (version doc) (version current)) as [Hv|Hv].
    + right. rewrite bool_decide_eq_true_2 by assumption. cbn. eauto.
    + left. rewrite bool_decide_eq_true_2 by assumption. cbn. auto.
  - left. rewrite bool_decide_eq_false_2 by assumption. cbn. auto.
Qed.

(** X10.  Over any sequence of requests the script-file version grows by the
    number of embedded documents fetched, and every document fetched is
    the document of one of the requests: the counter counts the calls of
    [jsDocuments.get]. *)
Theorem scriptFileVersion_counts_fetches (requests : list Request) (st : ModeState) :
  let st' := fold_left serve' requests st in
  exists fetched,
    jsDocumentsGets st' = jsDocumentsGets st ++ fetched
    /\ scriptFileVersion st' = (scriptFileVersion st + Z.of_nat (length fetched))%Z
    /\ Forall (fun d => exists r, In r requests /\ d = requestDocument r) fetched.
Proof.
  revert st; induction requests as [|r requests IH]; intros st; cbn [fold_left].
  - exists []. rewrite app_nil_r. repeat split; [cbn; lia|constructor].
  - destruct (IH (serve' st r)) as (fetched & Hg & Hv & Hf).
    rewrite serve_is_update in *.
    destruct (update_unfold (requestDocument r) st) as [[_ E]|[_ E]];
      rewrite E in Hg, Hv; cbn [jsDocumentsGets scriptFileVersion] in Hg, Hv.
    + exists (requestDocument r :: fetched).
      rewrite E. rewrite Hg, Hv, <- app_assoc. repeat split.
      * cbn [length]. lia.
      * constructor; [exists r; split; [now left|reflexivity]|].
        revert Hf. apply List.Forall_impl. intros d (r' & Hr' & ->).
        exists r'. split; [now right|reflexivity].
    + exists fetched. rewrite E. repeat split; try assumption.
      revert Hf. apply List.Forall_impl. intros d (r' & Hr' & ->).
      exists r'. split; [now right|reflexivity].
Qed.

(** X11.  When the embedded document carries the uri and the version of its
    host, the document tracked after a request has the uri and the
    version of the document of that request, whatever was requested
    before. *)
Theorem tracked_document_follows_request (st : ModeState) (r : Request) :
  (forall d, uri (jsDocuments_get d) = uri d
             /\ version (jsDocuments_get d) = version d) ->
  exists current,
    currentTextDocument (serve' st r) = Some current
    /\ uri current = uri (requestDocument r)
    /\ version current = version (requestDocument r).
Proof.
  intros Hid. rewrite serve_is_update.
  destruct (update_unfold (requestDocument r) st)
    as [[_ E]|[(current & Hc & Hu & Hv) E]]; rewrite E.
  - eexists. split; [reflexivity|]. apply Hid.
  - exists current. auto.
Qed.

(** X12.  The version string that the language service reads for the script
    changes with a request exactly when [updateCurrentTextDocument] finds
    a change; every other file reports the version [1] throughout. *)
Theorem getScriptVersion_changes_with_document (doc : TextDocument) (st : ModeState) :
  (JavascriptHost.getScriptVersion (update' doc st) FILE_NAME
   <> JavascriptHost.getScriptVersion st FILE_NAME
   <-> match currentTextDocument st with
       | None => True
       | Some current => uri doc <> uri current \/ version doc <> version current
       end)
  /\ (forall st0 fileName, fileName <> FILE_NAME ->
                           JavascriptHost.getScriptVersion st0 fileName = lit "1").
Proof.
  split.
  - unfold JavascriptHost.getScriptVersion.
    rewrite bool_decide_eq_true_2 by reflexivity.
    destruct (update_unfold doc st) as [[G E]|[(current & Hc & Hu & Hv) E]]; rewrite E.
    + cbn [scriptFileVersion]. split; [intros _; exact G|].
      intros _ H. apply of_Z_inj in H. lia.
    + rewrite Hc. split; [congruence|]. intros [H|H]; contradiction.
  - intros st0 fileName Hne. unfold JavascriptHost.getScriptVersion.
    now rewrite bool_decide_eq_false_2.
Qed.

End ModeMore.

Lemma tracked_document_follows_request_witness :
  exists current,
    JavascriptMode.currentTextDocument
      (JavascriptMode.serve (fun d => d) silent_service no_word fresh_mode
         (JavascriptMode.DoHover layout_view {| line := 0; character := 1 |}))
    = Some current
    /\ uri current = uri layout_view /\ version current = version layout_view.
Proof.
  apply (tracked_document_follows_request (fun d => d) silent_service no_word
           fresh_mode (JavascriptMode.DoHover layout_view {| line := 0; character := 1 |})).
  intros d. split; reflexivity.
Defined.

Section HostMore.
Import JavascriptMode JavascriptHost.
Variable join : jsstring -> jsstring -> jsstring.
Variable serverFolder : jsstring.
Variable jsDocuments_get : TextDocument -> TextDocument.

Lemma substring_whole s : substring s 0 (Z.of_nat (length s)) = s.
Proof.
  unfold substring.
  rewrite (Z.max_l 0 0), (Z.min_l 0) by lia.
  rewrite (Z.max_l (Z.of_nat (length s)) 0), Z.min_id by lia.
  rewrite Z.max_r, Z.min_l by lia.
  rewrite Z.sub_0_r, Nat2Z.id. cbn. apply firstn_all.
Qed.

(** X13.  The two files the host announces are served as follows once a
    request has set the tracked document.  The script is the text of
    the tracked document and its snapshot gives the whole text back; no
    file name that starts with [vscode:] reaches the library loader; the
    library [jquery] is loaded through [loadLibrary], and asking for it
    again gives the same snapshot without any change of the loader
    state, so without another file-system call. *)
Theorem host_snapshots (fs fs' : JavascriptLibs.FileSystem)
    (doc : TextDocument) (st : ModeState) (libs : JavascriptLibs.LibState) :
  let st' := updateCurrentTextDocument jsDocuments_get doc st in
  let snapshot := getScriptSnapshot join serverFolder in
  (exists current,
      currentTextDocument st' = Some current
      /\ snapshot fs FILE_NAME st' libs
         = (Returned {| snapshot_text := getText current None |}, libs)
      /\ snapshot_getText {| snapshot_text := getText current None |} 0
           (snapshot_getLength {| snapshot_text := getText current None |})
         = getText current None)
  /\ (forall fileName,
         startsWith fileName (lit "vscode:") = true ->
         snd (snapshot fs fileName st' libs) = libs
         /\ (fileName <> FILE_NAME ->
             fst (snapshot fs fileName st' libs)
             = Returned {| snapshot_text := lit "" |}))
  /\ (snapshot fs (lit "jquery") st' libs
      = (Returned {| snapshot_text :=
                       fst (JavascriptLibs.loadLibrary join serverFolder fs
                              (lit "jquery") libs) |},
         snd (JavascriptLibs.loadLibrary join serverFolder fs (lit "jquery") libs))
      /\ snapshot fs' (lit "jquery") st' (snd (snapshot fs (lit "jquery") st' libs))
         = snapshot fs (lit "jquery") st' libs).
Proof.
  intros st' snapshot. subst snapshot. split; [|split].
  - destruct (update_current jsDocuments_get doc st) as [current Hc]. fold st' in Hc.
    exists current. split; [exact Hc|]. split.
    + unfold getScriptSnapshot.
      replace (startsWith FILE_NAME (lit "vscode:")) with true by reflexivity.
      rewrite bool_decide_eq_true_2 by reflexivity.
      unfold withCurrent. rewrite Hc. reflexivity.
    + apply substring_whole.
  - intros fileName Hs. unfold getScriptSnapshot. rewrite Hs.
    destruct (bool_decide (fileName = FILE_NAME)) eqn:E.
    + split; [reflexivity|]. apply bool_decide_eq_true in E. congruence.
    + split; reflexivity.
  - assert (E : forall fs0 libs0,
               getScriptSnapshot join serverFolder fs0 (lit "jquery") st' libs0
               = (Returned {| snapshot_text :=
                                fst (JavascriptLibs.loadLibrary join serverFolder fs0
                                       (lit "jquery") libs0) |},
                  snd (JavascriptLibs.loadLibrary join serverFolder fs0
                         (lit "jquery") libs0))).
    { intros fs0 libs0. unfold getScriptSnapshot.
      replace (startsWith (lit "jquery") (lit "vscode:")) with false by reflexivity.
      destruct (JavascriptLibs.loadLibrary _ _ _ _ _); reflexivity. }
    split; [apply E|]. rewrite !E. cbn [snd].
    assert (M : JavascriptLibs.loadLibrary join serverFolder fs' (lit "jquery")
                  (snd (JavascriptLibs.loadLibrary join serverFolder fs
                          (lit "jquery") libs))
                = JavascriptLibs.loadLibrary join serverFolder fs (lit "jquery") libs).
    { unfold JavascriptLibs.loadLibrary at 2 3.
      destruct (JavascriptLibs.contents_get (JavascriptLibs.contents libs)
                  (lit "jquery")) as [content|] eqn:Hget.
      - cbn [snd]. now apply loadLibrary_hit.
      - destruct (JavascriptLibs.resolve join serverFolder fs (lit "jquery"))
          as [libPath probes].
        destruct (JavascriptLibs.readFileSync fs libPath) as [content|];
          cbn [snd]; apply loadLibrary_hit; cbn [JavascriptLibs.contents];
          now apply contents_get_set. }
    rewrite M. reflexivity.
Qed.

End HostMore.

Section SignatureMore.
Import JavascriptSignature.
Variable Parts : Type.
Variable displayPartsToString : Parts -> jsstring.

Abbreviation labelOf :=
  (fun p : SignatureHelpParameter Parts => displayPartsToString (displayParts Parts p)).
Abbreviation parameterOf :=
  (fun p : SignatureHelpParameter Parts =>
     {| parameter_label := displayPartsToString (displayParts Parts p);
        parameter_documentation :=
          displayPartsToString (documentation Parts p) |}).

Lemma eachParameter_spec item a_length i rest signature :
  (a_length = i + Z.of_nat (length rest))%Z ->
  let done := eachParameter Parts displayPartsToString item a_length i rest signature in
  signature_label done
  = signature_label signature
    ++ join (displayPartsToString (separatorDisplayParts Parts item))
         (List.map labelOf rest)
  /\ signature_parameters done
     = signature_parameters signature ++ List.map parameterOf rest
  /\ signature_documentation done = signature_documentation signature.
Proof.
  revert i signature; induction rest as [|p rest IH]; intros i signature Hlen;
    cbn [eachParameter].
  - cbn. rewrite !app_nil_r. auto.
  - cbn [length] in Hlen. cbn zeta.
    destruct (Z.ltb_spec i (a_length - 1));
      match goal with
      | |- context [eachParameter _ _ _ _ _ _ ?s] =>
          destruct (IH (i + 1)%Z s) as (Hl & Hp & Hd); [lia|]
      end;
      cbn zeta in Hl, Hp, Hd; rewrite Hl, Hp, Hd;
      cbn [signature_label signature_parameters signature_documentation];
      (destruct rest as [|p' rest]; [cbn [length] in Hlen; try lia|]);
      try (cbn [length] in Hlen; lia).
    + change (join ?sep (List.map labelOf (p :: p' :: rest)))
        with (labelOf p ++ sep ++ join sep (List.map labelOf (p' :: rest))).
      cbn [List.map]. rewrite <- !app_assoc. auto.
    + cbn. rewrite !app_nil_r. auto.
Qed.

(** X14.  The label of a signature is the prefix, the labels of the
    parameters with the separator between every two of them, and the
    suffix; the signature has one parameter entry per parameter, in
    order, and no documentation. *)
Theorem signatureOf_label (item : SignatureHelpItem Parts) :
  let signature := signatureOf Parts displayPartsToString item in
  signature_label signature
  = displayPartsToString (prefixDisplayParts Parts item)
    ++ join (displayPartsToString (separatorDisplayParts Parts item))
         (List.map labelOf (parameters Parts item))
    ++ displayPartsToString (suffixDisplayParts Parts item)
  /\ signature_parameters signature = List.map parameterOf (parameters Parts item)
  /\ signature_documentation signature = None.
Proof.
  unfold signatureOf.
  destruct (eachParameter_spec item (Z.of_nat (length (parameters Parts item))) 0
              (parameters Parts item)
              {| signature_label :=
                   lit "" ++ displayPartsToString (prefixDisplayParts Parts item);
                 signature_documentation := None;
                 signature_parameters := [] |}) as (Hl & Hp & Hd); [lia|].
  cbn zeta in *. cbn [signature_label signature_parameters signature_documentation] in *.
  rewrite Hl, Hp, Hd. cbn [app]. rewrite <- app_assoc. auto.
Qed.

End SignatureMore.

Section SymbolsMore.
Import JavascriptMode.
Variable documentUri : jsstring.
Variable current : TextDocument.

Lemma collectAll_returned_spans items :
  Forall (fun item =>
    forall containerLabel acc acc',
      collectSymbols documentUri (Some current) item containerLabel acc = Returned acc' ->
      spans_present [item]) items ->
  forall containerLabel acc acc',
    collectAll documentUri (Some current) items containerLabel acc = Returned acc' ->
    spans_present items.
Proof.
  induction 1 as [|item rest Hitem _ IH]; intros containerLabel acc acc' E.
  - constructor.
  - cbn [collectAll] in E.
    destruct (collectSymbols documentUri (Some current) item containerLabel acc)
      as [acc1|] eqn:E1; [|discriminate].
    unfold spans_present. cbn [List.flat_map]. apply Forall_app. split.
    + specialize (Hitem _ _ _ E1). unfold spans_present in Hitem.
      cbn [List.flat_map] in Hitem. now rewrite app_nil_r in Hitem.
    + apply (IH _ _ _ E).
Qed.

Lemma collectSymbols_returned_spans item :
  forall containerLabel acc acc',
    collectSymbols documentUri (Some current) item containerLabel acc = Returned acc' ->
    spans_present [item].
Proof.
  induction item as [text kind spans childItems IH] using NavigationBarItem_nested_ind.
  intros containerLabel acc acc' E.
  destruct spans as [|span0 spans]; [discriminate E|].
  rewrite collectSymbols_unfold in E.
  apply (collectAll_returned_spans _ IH) in E.
  unfold spans_present. cbn [List.flat_map]. rewrite app_nil_r, nodes_children.
  constructor; [discriminate|exact E].
Qed.

Lemma missing_span_exists (l : list NavigationBarItem) :
  ~ Forall (fun n => nav_spans n <> []) l ->
  exists n, In n l /\ nav_spans n = [].
Proof.
  induction l as [|n l IH]; intros H; [exfalso; apply H; constructor|].
  destruct (nav_spans n) as [|s ss] eqn:En.
  - exists n. split; [now left|exact En].
  - destruct IH as (m & Hm & Em).
    + intros Hl. apply H. constructor; [congruence|exact Hl].
    + exists m. split; [now right|exact Em].
Qed.

End SymbolsMore.

(** X15.  [findDocumentSymbols] raises exactly when some navigation item, at
    any depth and of any kind, has no span: the key of the
    deduplication reads the first span of every item it visits. *)
Theorem findDocumentSymbols_raises_iff_span_missing
    (jsDocuments_get : TextDocument -> TextDocument)
    (jsLanguageService : JavascriptMode.LanguageService)
    (document : TextDocument) (st : JavascriptMode.ModeState)
    (items : list JavascriptMode.NavigationBarItem) :
  JavascriptMode.getNavigationBarItems jsLanguageService
    (JavascriptMode.updateCurrentTextDocument jsDocuments_get document st)
    JavascriptMode.FILE_NAME = Some items ->
  fst (JavascriptMode.findDocumentSymbols jsDocuments_get jsLanguageService document st)
  = TypeError
  <-> exists n, In n (List.flat_map nodes items) /\ JavascriptMode.nav_spans n = [].
Proof.
  intros Hitems.
  destruct (update_current jsDocuments_get document st) as [current Hc].
  unfold JavascriptMode.findDocumentSymbols. rewrite Hitems, Hc. cbn [fst].
  destruct (JavascriptMode.collectAll (uri document) (Some current) items None _)
    as [acc|] eqn:E.
  - split; [discriminate|]. intros (n & Hn & En). exfalso.
    assert (Hsp : spans_present items).
    { apply (collectAll_returned_spans (uri document) current items) in E; [exact E|].
      apply List.Forall_forall. intros item _. apply collectSymbols_returned_spans. }
    unfold spans_present in Hsp. rewrite List.Forall_forall in Hsp.
    now apply (Hsp n Hn).
  - split; [intros _|reflexivity]. apply missing_span_exists. intros Hsp.
    destruct (collectAll_tracked (uri document) current items) with
      (containerLabel := @None jsstring)
      (acc := {| JavascriptMode.result := []; JavascriptMode.existing := ∅ |})
      (entries := @nil Entry)
      as (acc' & entries & E' & _); auto.
    { apply List.Forall_forall. intros item _. apply collectSymbols_tracked. }
    { repeat split; [apply NoDup_nil; exact I|].
      intros e He. now apply elem_of_nil in He. }
    congruence.
Qed.

(** X16.  The key of the deduplication is the concatenation of text, kind and
    start offset, so two different items can share it: of two top-level
    items without children whose concatenations are equal, only the first
    is returned, whatever their names. *)
Theorem findDocumentSymbols_drops_colliding_item
    (jsDocuments_get : TextDocument -> TextDocument)
    (jsLanguageService : JavascriptMode.LanguageService)
    (document : TextDocument) (st : JavascriptMode.ModeState)
    (text1 kind1 text2 kind2 : jsstring)
    (span1 span2 : JavascriptMode.TextSpan) (spans1 spans2 : list JavascriptMode.TextSpan) :
  let st' := JavascriptMode.updateCurrentTextDocument jsDocuments_get document st in
  JavascriptMode.getNavigationBarItems jsLanguageService st' JavascriptMode.FILE_NAME
  = Some [ JavascriptMode.NavItem text1 kind1 (span1 :: spans1) None;
           JavascriptMode.NavItem text2 kind2 (span2 :: spans2) None ] ->
  kind1 <> lit "script" ->
  JavascriptMode.signature text1 kind1 span1 = JavascriptMode.signature text2 kind2 span2 ->
  exists current,
    JavascriptMode.currentTextDocument st' = Some current
    /\ fst (JavascriptMode.findDocumentSymbols jsDocuments_get jsLanguageService
              document st)
       = Returned [ JavascriptMode.symbolOf (uri document) current text1 kind1 span1 None ].
Proof.
  intros st' Hitems Hk Hsig.
  destruct (update_current jsDocuments_get document st) as [current Hc]. fold st' in Hc.
  exists current. split; [exact Hc|].
  unfold JavascriptMode.findDocumentSymbols. fold st'. rewrite Hitems, Hc.
  cbn [fst JavascriptMode.collectAll JavascriptMode.collectSymbols
       JavascriptMode.result JavascriptMode.existing].
  rewrite (bool_decide_eq_false_2 _ Hk).
  rewrite (bool_decide_eq_false_2 (JavascriptMode.signature text1 kind1 span1 ∈ ∅))
    by apply not_elem_of_empty.
  cbn [negb andb JavascriptMode.withCurrent' JavascriptMode.result
       JavascriptMode.existing app].
  rewrite <- Hsig.
  rewrite (bool_decide_eq_true_2
             (JavascriptMode.signature text1 kind1 span1
              ∈ {[JavascriptMode.signature text1 kind1 span1]} ∪ ∅))
    by (apply elem_of_union; left; now apply elem_of_singleton).
  cbn [negb]. rewrite andb_false_r. reflexivity.
Qed.

Lemma findDocumentSymbols_raises_iff_span_missing_witness :
  fst (JavascriptMode.findDocumentSymbols (fun d => d) spanless_service layout_view
         fresh_mode) = TypeError.
Proof.
  apply (findDocumentSymbols_raises_iff_span_missing (fun d => d) spanless_service
           layout_view fresh_mode
           [JavascriptMode.NavItem (lit "<global>") (lit "script") [] None]).
  - reflexivity.
  - eexists. split; [left; reflexivity|reflexivity].
Defined.

Lemma findDocumentSymbols_drops_colliding_item_witness :
  exists current,
    JavascriptMode.currentTextDocument
      (JavascriptMode.updateCurrentTextDocument (fun d => d) layout_view fresh_mode)
    = Some current
    /\ fst (JavascriptMode.findDocumentSymbols (fun d => d) colliding_service
              layout_view fresh_mode)
       = Returned [ JavascriptMode.symbolOf (uri layout_view) current (lit "a1") (lit "")
                      {| JavascriptMode.ts_start := 2; JavascriptMode.ts_length := 2 |}
                      None ].
Proof.
  apply (findDocumentSymbols_drops_colliding_item (fun d => d) colliding_service
           layout_view fresh_mode (lit "a1") (lit "") (lit "a") (lit "")
           {| JavascriptMode.ts_start := 2; JavascriptMode.ts_length := 2 |}
           {| JavascriptMode.ts_start := 12; JavascriptMode.ts_length := 1 |} [] []).
  - reflexivity.
  - discriminate.
  - reflexivity.
Defined.
